(** * VsChromiumNative: the exported text primitives of the native search DLL

    A shallow embedding of [src/Native/VsChromiumNative.cpp]:
    - [GetLineExtentFromPosition] (template over the character type) and its
      two exports [Ascii_GetLineExtentFromPosition] and
      [Utf16_GetLineExtentFromPosition];
    - [Text_HasUtf8Bom], [Text_IsAscii], [Text_GetKind];
    - [Ascii_Compare];
    - [Utf16_Search] with the comparators [char_equal] and [char_equal_icase];
    - [AsciiSearchAlgorithm_Create].

    A buffer is a list of characters and a pointer into it is an offset (a
    [Z], since the code computes pointers before the buffer's start).  A
    dereference outside the buffer is undefined in C++; here it is the
    failure [None] of a small monad that also records every offset that
    was dereferenced. *)

From Stdlib Require Import Strings.String.
From Stdlib Require Import ZArith NArith Nnat List Bool Lia Strings.Byte.
Import ListNotations.
Open Scope Z_scope.

(** ** Buffers and dereferences *)

(** [*(text + i)]: the character at offset [i], none outside the buffer. *)
Definition deref {C : Type} (text : list C) (i : Z) : option C :=
  if i <? 0 then None else nth_error text (Z.to_nat i).

(** A computation that dereferences a buffer: the offsets it dereferenced,
    in order, and its value, or [None] once a dereference left the buffer. *)
Definition Mem (A : Type) : Type := (list Z * option A)%type.

Definition ret {A} (a : A) : Mem A := ([], Some a).

Definition bind {A B} (m : Mem A) (f : A -> Mem B) : Mem B :=
  match m with
  | (t, None) => (t, None)
  | (t, Some a) => let (t', r) := f a in (t ++ t', r)
  end.

Definition load {C} (text : list C) (i : Z) : Mem C := ([i], deref text i).

Definition reads {A} (m : Mem A) : list Z := fst m.
Definition value {A} (m : Mem A) : option A := snd m.

Notation "x <- m ;; k" := (bind m (fun x => k))
  (at level 61, m at next level, right associativity).

(** ** Character types *)

(** What the template [GetLineExtentFromPosition<CharType>] needs of its
    character type: [==] and the conversion of ['\n']. *)
Class CharType (C : Type) := {
  char_eqb : C -> C -> bool;
  char_eqb_eq : forall a b, char_eqb a b = true <-> a = b;
  nl : C
}.

(** [char]: one byte. *)
#[export] Instance char_CharType : CharType byte := {|
  char_eqb := Byte.eqb;
  char_eqb_eq := fun a b => conj (byte_dec_bl a b) (@byte_dec_lb a b);
  nl := x0a
|}.

(** [wchar_t]: one UTF-16 code unit (16 bits on the DLL's platform). *)
Definition wchar_t : Type := N.

#[export] Instance wchar_t_CharType : CharType wchar_t := {|
  char_eqb := N.eqb;
  char_eqb_eq := N.eqb_eq;
  nl := 10%N
|}.

(** [static_cast<int>] of a pointer difference: reduction to 32 bits,
    two's complement. *)
Definition static_cast_int (x : Z) : Z :=
  (x + 2147483648) mod 4294967296 - 2147483648.

(** ** GetLineExtentFromPosition *)

(** The function returns [true] and writes the two out-parameters. *)
Record LineExtent : Type := mkLineExtent {
  succeeded : bool;
  lineStartPosition : Z;
  lineLen : Z
}.

Section GetLineExtentFromPosition.
Context {C : Type} `{CharType C}.
Variable text : list C.

(** [for (; start > low; start--) { if ( *start == nl) break; }]
    The recursion argument is the loop's variant [start - low]: the loop
    runs while it is positive (see [backward_eq]). *)
Fixpoint scan_backward (n : nat) (start : Z) : Mem Z :=
  match n with
  | O => ret start
  | S k =>
      c <- load text start ;;
      if char_eqb c nl then ret start else scan_backward k (start - 1)
  end.

Definition backward (low start : Z) : Mem Z :=
  scan_backward (Z.to_nat (start - low)) start.

(** [for (; end < high; end++) { if ( *end == nl) break; }]
    with the variant [high - end] as recursion argument. *)
Fixpoint scan_forward (n : nat) (end_ : Z) : Mem Z :=
  match n with
  | O => ret end_
  | S k =>
      c <- load text end_ ;;
      if char_eqb c nl then ret end_ else scan_forward k (end_ + 1)
  end.

Definition forward (high end_ : Z) : Mem Z :=
  scan_forward (Z.to_nat (high - end_)) end_.

(** [text] is offset 0, so [low = max(text, text + position - maxOffset)]
    is [Z.max 0 (position - maxOffset)], and so on. *)
Definition GetLineExtentFromPosition
    (textLen position maxOffset : Z) : Mem LineExtent :=
  let low := Z.max 0 (0 + position - maxOffset) in
  let high := Z.min (0 + textLen) (0 + position + maxOffset) in
  let current := 0 + position in
  start <- backward low current ;;
  end_ <- forward high current ;;
  ret (mkLineExtent true
         (static_cast_int (start - 0))
         (static_cast_int (end_ - start))).

End GetLineExtentFromPosition.

Definition Ascii_GetLineExtentFromPosition
    (text : list byte) (textLen position maxOffset : Z) : Mem LineExtent :=
  GetLineExtentFromPosition text textLen position maxOffset.

Definition Utf16_GetLineExtentFromPosition
    (text : list wchar_t) (textLen position maxOffset : Z) : Mem LineExtent :=
  GetLineExtentFromPosition text textLen position maxOffset.

(** The buffer ["aaa\nbbb\nccc"], as bytes and as wide characters. *)
Definition aaa_bbb_ccc : list byte :=
  [x61; x61; x61; x0a; x62; x62; x62; x0a; x63; x63; x63].
Definition aaa_bbb_ccc_wide : list wchar_t := map Byte.to_N aaa_bbb_ccc.

(** The four [assert]s that follow the two loops.  They are compiled only
    in debug builds and write nothing, so they are stated on their own. *)
Definition line_extent_asserts (low high start end_ : Z) : bool :=
  (low <=? start) && (start <=? high) && (low <=? end_) && (end_ <=? high).

(** ** Text classification *)

Inductive TextKind : Type :=
  | Ascii
  | AsciiWithUtf8Bom
  | Utf8WithBom
  | Unknown.

(** [textLen >= 3 && text[0] == 0xEF && text[1] == 0xBB && text[2] == 0xBF],
    with the short-circuit evaluation of [&&]. *)
Definition Text_HasUtf8Bom (text : list byte) (textLen : Z) : Mem bool :=
  if 3 <=? textLen then
    b0 <- load text 0 ;;
    if Byte.eqb b0 xef then
      b1 <- load text 1 ;;
      if Byte.eqb b1 xbb then
        b2 <- load text 2 ;;
        ret (Byte.eqb b2 xbf)
      else ret false
    else ret false
  else ret false.

Definition asciiLimit : N := 127.

(** [for (; textPtr < textEndPtr; textPtr++) if ( *textPtr > asciiLimit) return false;]
    then [return true], with the variant [textEndPtr - textPtr] as
    recursion argument. *)
Fixpoint Text_IsAscii_loop (text : list byte) (n : nat) (textPtr : Z) : Mem bool :=
  match n with
  | O => ret true
  | S k =>
      b <- load text textPtr ;;
      if (asciiLimit <? Byte.to_N b)%N then ret false
      else Text_IsAscii_loop text k (textPtr + 1)
  end.

(** The pointer argument is the buffer [text] and the offset [off] in it:
    [Text_GetKind] calls the function on [text + 3]. *)
Definition Text_IsAscii (text : list byte) (off : Z) (textLen : Z) : Mem bool :=
  let textPtr := off in
  let textEndPtr := textPtr + textLen in
  Text_IsAscii_loop text (Z.to_nat (textEndPtr - textPtr)) textPtr.

Definition Text_GetKind (text : list byte) (textLen : Z) : Mem TextKind :=
  utf8 <- Text_HasUtf8Bom text textLen ;;
  if utf8 then
    isAscii <- Text_IsAscii text 3 (textLen - 3) ;;
    if isAscii then ret AsciiWithUtf8Bom else ret Utf8WithBom
  else
    isAscii <- Text_IsAscii text 0 textLen ;;
    if isAscii then ret Ascii else ret Unknown.

(** A byte of the ASCII range, as the loop of [Text_IsAscii] tests it. *)
Definition is_ascii_byte (b : byte) : bool := negb (asciiLimit <? Byte.to_N b)%N.

(** Whether the buffer starts with the bytes EF BB BF. *)
Definition has_bom (text : list byte) : bool :=
  match text with
  | b0 :: b1 :: b2 :: _ => Byte.eqb b0 xef && Byte.eqb b1 xbb && Byte.eqb b2 xbf
  | _ => false
  end.

(** ** Ascii_Compare *)

(** The C library's [memcmp(s1, s2, n)]: the sign of the first difference
    among the first [n] bytes, read as unsigned, and 0 if there is none;
    [None] when a compared byte lies outside a buffer. *)
Fixpoint memcmp_from (s1 s2 : list byte) (n : nat) (i : Z) : option Z :=
  match n with
  | O => Some 0
  | S k =>
      match deref s1 i, deref s2 i with
      | Some a, Some b =>
          if Byte.eqb a b then memcmp_from s1 s2 k (i + 1)
          else Some (Z.of_N (Byte.to_N a) - Z.of_N (Byte.to_N b))
      | _, _ => None
      end
  end.

Definition memcmp (s1 s2 : list byte) (n : N) : option Z :=
  memcmp_from s1 s2 (N.to_nat n) 0.

(** The lengths are [size_t]. *)
Definition Ascii_Compare
    (text1 : list byte) (text1Length : N)
    (text2 : list byte) (text2Length : N) : option bool :=
  if negb (text1Length =? text2Length)%N then Some false
  else
    match memcmp text1 text2 text1Length with
    | Some r => Some (r =? 0)
    | None => None
    end.

(** ** Utf16_Search *)

(** A returned pointer into the text: [nullptr] or [text + i]. *)
Inductive TextPtr : Type :=
  | nullptr
  | text_plus (i : Z).

Section Comparators.
Context {charT : Type} `{CharType charT}.

(** [std::toupper(ch, loc_)] with [loc_] the global locale captured by the
    constructor: a function of the character supplied by the C++ runtime. *)
Variable toupper : charT -> charT.

Definition char_equal_icase (ch1 ch2 : charT) : bool :=
  char_eqb (toupper ch1) (toupper ch2).

Definition char_equal (ch1 ch2 : charT) : bool :=
  char_eqb ch1 ch2.
End Comparators.

Section StdSearch.
Context {T : Type}.
Variable p : T -> T -> bool.

(** The inner loop of [std::search] at one candidate: all of the pattern
    is matched, by [p( *it, *s_it)], before the text ends. *)
Fixpoint std_search_at (text pattern : list T) : bool :=
  match pattern, text with
  | [], _ => true
  | _ :: _, [] => false
  | s :: pattern', c :: text' => p c s && std_search_at text' pattern'
  end.

(** [std::search(first, last, s_first, s_last, p)] of the C++ library on
    the ranges [text = [first, last)] and [pattern = [s_first, s_last)]: the
    first candidate at which the inner loop succeeds, [last] if there is
    none.  [first] is the offset of the range's first element. *)
Fixpoint std_search (text pattern : list T) (first : Z) : Z :=
  if std_search_at text pattern then first
  else
    match text with
    | [] => first
    | _ :: text' => std_search text' pattern (first + 1)
    end.
End StdSearch.

(** The range [[p, p + n)] of a buffer, if it lies inside the buffer. *)
Definition range {T} (buf : list T) (n : N) : option (list T) :=
  if (n <=? N.of_nat (length buf))%N then Some (firstn (N.to_nat n) buf) else None.

Section Utf16_Search.
(** [AsciiSearchBase::kMatchCase], declared in search_base.h. *)
Variable kMatchCase : Z.
Variable toupper : wchar_t -> wchar_t.

Definition Utf16_Search
    (text : list wchar_t) (textLength : N)
    (pattern : list wchar_t) (patternLength : N)
    (options : Z) : option TextPtr :=
  match range text textLength, range pattern patternLength with
  | Some text_range, Some pattern_range =>
      let textEnd := 0 + Z.of_N textLength in
      let result :=
        if negb (Z.land options kMatchCase =? 0)
        then std_search char_equal text_range pattern_range 0
        else std_search (char_equal_icase toupper) text_range pattern_range 0 in
      if result =? textEnd then Some nullptr else Some (text_plus result)
  | _, _ => None
  end.
End Utf16_Search.

(** Uppercase conversion of the C locale: the letters a to z. *)
Definition toupper_C (c : wchar_t) : wchar_t :=
  if ((97 <=? c) && (c <=? 122))%N then (c - 32)%N else c.

(** ** AsciiSearchAlgorithm_Create *)

(** [enum SearchAlgorithmKind]; the argument crosses the DLL boundary as an
    integer, so any value can arrive. *)
Definition kStrStr : Z := 1.
Definition kBndm32 : Z := 2.
Definition kBndm64 : Z := 3.
Definition kBoyerMoore : Z := 4.
Definition kRegex : Z := 5.
Definition kRe2 : Z := 6.

(** winerror.h: [S_OK], [E_OUTOFMEMORY] (0x8007000E as a signed 32-bit
    [HRESULT]) and the macro [FAILED]. *)
Definition S_OK : Z := 0.
Definition E_OUTOFMEMORY : Z := -2147024882.
Definition FAILED (hr : Z) : bool := hr <? 0.

(** Modelled from the spec: [AsciiSearchBase::SearchCreateResult], declared
    in search_base.h, which is not part of the sources at hand: a result
    record carrying either success or an error code and a human-readable
    message.  Its default constructor gives the success record and
    [SetError] stores the code and the message. *)
Record SearchCreateResult : Type := mkSearchCreateResult {
  HResult : Z;
  ErrorMessage : string
}.

Definition SearchCreateResult_new : SearchCreateResult :=
  mkSearchCreateResult S_OK EmptyString.

Definition SetError (hr : Z) (message : string)
    (r : SearchCreateResult) : SearchCreateResult :=
  mkSearchCreateResult hr message.

(** The classes that [AsciiSearchAlgorithm_Create] instantiates. *)
Inductive CharComparer : Type := CaseSensitive | CaseInsensitive.

Inductive SearchClass : Type :=
  | Bndm32Search (c : CharComparer)
  | Bndm64Search (c : CharComparer)
  | BoyerMooreSearch
  | StrStrSearch
  | RegexSearch
  | RE2Search.

(** What the call did to the heap, in order: [new T()] and [delete result]. *)
Inductive HeapEvent : Type :=
  | New (c : SearchClass)
  | Delete (c : SearchClass).

Section AsciiSearchAlgorithm_Create.
(** [AsciiSearchBase::kMatchCase], declared in search_base.h. *)
Variable kMatchCase : Z.
(** The engines are in the search_*.h headers: the state of an engine
    object, the state its constructor leaves, and the virtual [PreProcess],
    which updates the object and the result record it gets by
    reference. *)
Variable EngineState : Type.
Variable constructor : SearchClass -> EngineState.
Variable PreProcess :
  SearchClass -> EngineState -> list byte -> Z -> Z -> SearchCreateResult ->
  EngineState * SearchCreateResult.

(** An [AsciiSearchBase] object: its dynamic class and its state. *)
Definition AsciiSearchBase : Type := (SearchClass * EngineState)%type.

Record CreateOutcome : Type := mkCreateOutcome {
  returned : option AsciiSearchBase;       (* [None] is [NULL] *)
  searchCreateResult : SearchCreateResult; (* the out-parameter *)
  heap_events : list HeapEvent
}.

Definition comparer (options : Z) : CharComparer :=
  if negb (Z.land options kMatchCase =? 0) then CaseSensitive else CaseInsensitive.

(** The [switch (kind)], which has no [default]: the class of the object
    that [result] points to afterwards, [None] while it is still [NULL]. *)
Definition Create_switch (kind : Z) (options : Z) : option SearchClass :=
  if kind =? kBndm32 then
    Some (if negb (Z.land options kMatchCase =? 0)
          then Bndm32Search CaseSensitive else Bndm32Search CaseInsensitive)
  else if kind =? kBndm64 then
    Some (if negb (Z.land options kMatchCase =? 0)
          then Bndm64Search CaseSensitive else Bndm64Search CaseInsensitive)
  else if kind =? kBoyerMoore then Some BoyerMooreSearch
  else if kind =? kStrStr then Some StrStrSearch
  else if kind =? kRegex then Some RegexSearch
  else if kind =? kRe2 then Some RE2Search
  else None.

Definition AsciiSearchAlgorithm_Create
    (kind : Z) (pattern : list byte) (patternLen : Z) (options : Z)
    : CreateOutcome :=
  let searchCreateResult0 := SearchCreateResult_new in
  match Create_switch kind options with
  | None =>
      mkCreateOutcome None
        (SetError E_OUTOFMEMORY "Out of memory"%string searchCreateResult0) []
  | Some c =>
      let (state, searchCreateResult1) :=
        PreProcess c (constructor c) pattern patternLen options
                   searchCreateResult0 in
      if FAILED (HResult searchCreateResult1)
      then mkCreateOutcome None searchCreateResult1 [New c; Delete c]
      else mkCreateOutcome (Some (c, state)) searchCreateResult1 [New c]
  end.

(** The class of the engine the call constructed, if it constructed one. *)
Definition constructed (o : CreateOutcome) : option SearchClass :=
  match heap_events o with
  | New c :: _ => Some c
  | _ => None
  end.
End AsciiSearchAlgorithm_Create.

(** ** Occurrences, for the statements about [Utf16_Search] *)

(** [pattern] occurs in [text] at offset [i], characters being matched by the
    relation [R] (text character first). *)
Definition occurs_at {T} (R : T -> T -> Prop) (text pattern : list T) (i : nat) : Prop :=
  exists pre mid post,
    text = pre ++ mid ++ post /\ length pre = i /\ Forall2 R mid pattern.

Section CharsMatch.
Variable kMatchCase : Z.
Variable toupper : wchar_t -> wchar_t.

(** With the match-case bit set a text character matches a pattern
    character when they are equal, without it when their uppercase
    conversions are equal. *)
Definition chars_match (options : Z) (c s : wchar_t) : Prop :=
  if negb (Z.land options kMatchCase =? 0) then c = s
  else toupper c = toupper s.
End CharsMatch.

(** ** The selection rule, for the statements about [AsciiSearchAlgorithm_Create] *)

(** The three variants a selection by pattern length chooses between. *)
Inductive Variant : Type :=
  | NarrowBitParallel
  | WideBitParallel
  | GeneralSublinear.

Definition variant_of (c : SearchClass) : option Variant :=
  match c with
  | Bndm32Search _ => Some NarrowBitParallel
  | Bndm64Search _ => Some WideBitParallel
  | BoyerMooreSearch => Some GeneralSublinear
  | _ => None
  end.

(** The selection as the specification words it, by the measured pattern
    length: narrow up to 32, wide from 33 to 64, the fallback beyond. *)
Definition spec_variant_by_length (patternLen : Z) : Variant :=
  if patternLen <=? 32 then NarrowBitParallel
  else if patternLen <=? 64 then WideBitParallel
  else GeneralSublinear.

(** The variant of the engine a call constructed. *)
Definition constructed_variant {EngineState} (o : CreateOutcome EngineState)
    : option Variant :=
  match constructed EngineState o with
  | Some c => variant_of c
  | None => None
  end.

(** "The choice between the three variants is made inside Create from the
    measured pattern length, not from the kind the caller passed": for each
    of the three kinds, whatever the engines' internals. *)
Definition selection_by_pattern_length : Prop :=
  forall (kMatchCase : Z) (EngineState : Type)
         (constructor : SearchClass -> EngineState)
         (PreProcess : SearchClass -> EngineState -> list byte -> Z -> Z ->
                       SearchCreateResult -> EngineState * SearchCreateResult)
         (kind : Z) (pattern : list byte) (options : Z),
    In kind [kBndm32; kBndm64; kBoyerMoore] ->
    constructed_variant
      (AsciiSearchAlgorithm_Create kMatchCase EngineState constructor PreProcess
         kind pattern (Z.of_nat (length pattern)) options)
    = Some (spec_variant_by_length (Z.of_nat (length pattern))).

(** Engines for the examples: no state, and a [PreProcess] that accepts
    every pattern but, for the two regex engines, the empty one. *)
Definition PreProcess_example
    (c : SearchClass) (state : unit) (pattern : list byte)
    (patternLen options : Z) (r : SearchCreateResult)
    : unit * SearchCreateResult :=
  match c with
  | RegexSearch | RE2Search =>
      if patternLen =? 0 then (tt, SetError (-2147467259) "Invalid pattern"%string r)
      else (tt, r)
  | _ => (tt, r)
  end.

Definition Create_example : Z -> list byte -> Z -> Z -> CreateOutcome unit :=
  AsciiSearchAlgorithm_Create 1 unit (fun _ => tt) PreProcess_example.

(** ** AsciiSearchAlgorithm_Delete and the heap *)

Definition SearchClass_eq_dec (a b : SearchClass) : {a = b} + {a <> b}.
Proof. repeat decide equality. Defined.

(** [delete search]: deleting the null pointer does nothing. *)
Definition AsciiSearchAlgorithm_Delete {EngineState}
    (search : option (AsciiSearchBase EngineState)) : list HeapEvent :=
  match search with
  | None => []
  | Some (c, _) => [Delete c]
  end.

(** Taking one object of class [c] off the heap, if there is one. *)
Fixpoint heap_remove (c : SearchClass) (heap : list SearchClass)
    : option (list SearchClass) :=
  match heap with
  | [] => None
  | c' :: rest =>
      if SearchClass_eq_dec c c' then Some rest
      else match heap_remove c rest with
           | Some rest' => Some (c' :: rest')
           | None => None
           end
  end.

(** The objects on the heap after a sequence of events; [None] when the
    sequence deletes an object that is not there. *)
Fixpoint heap_after (events : list HeapEvent) (heap : list SearchClass)
    : option (list SearchClass) :=
  match events with
  | [] => Some heap
  | New c :: rest => heap_after rest (c :: heap)
  | Delete c :: rest =>
      match heap_remove c heap with
      | Some heap' => heap_after rest heap'
      | None => None
      end
  end.
(** ** Reasoning about dereferences *)

Lemma deref_Some {C} (text : list C) i c :
  deref text i = Some c -> 0 <= i < Z.of_nat (length text).
Proof.
  unfold deref. destruct (Z.ltb_spec i 0) as [|Hi]; [discriminate|].
  intros E. assert (nth_error text (Z.to_nat i) <> None) as N by congruence.
  apply nth_error_Some in N. lia.
Qed.

Lemma deref_in_range {C} (text : list C) i :
  0 <= i < Z.of_nat (length text) -> exists c, deref text i = Some c.
Proof.
  intros Hi. unfold deref. destruct (Z.ltb_spec i 0); [lia|].
  destruct (nth_error text (Z.to_nat i)) eqn:E; [eauto|].
  apply nth_error_None in E. lia.
Qed.

Lemma deref_app_l {C} (l r : list C) i :
  i < Z.of_nat (length l) -> deref (l ++ r) i = deref l i.
Proof.
  intros Hi. unfold deref. destruct (Z.ltb_spec i 0); [reflexivity|].
  apply nth_error_app1. lia.
Qed.

Lemma deref_app_r {C} (l r : list C) i :
  Z.of_nat (length l) <= i -> deref (l ++ r) i = deref r (i - Z.of_nat (length l)).
Proof.
  intros Hi. unfold deref.
  destruct (Z.ltb_spec i 0); [lia|].
  destruct (Z.ltb_spec (i - Z.of_nat (length l)) 0); [lia|].
  rewrite nth_error_app2 by lia. f_equal. lia.
Qed.

Lemma deref_here {C} (c : C) (r : list C) : deref (c :: r) 0 = Some c.
Proof. reflexivity. Qed.

Lemma deref_In {C} (text : list C) i c : deref text i = Some c -> In c text.
Proof.
  unfold deref. destruct (i <? 0); [discriminate|]. apply nth_error_In.
Qed.

Lemma bind_load {C A} (text : list C) i c (f : C -> Mem A) :
  deref text i = Some c ->
  (x <- load text i ;; f x) = (i :: reads (f c), value (f c)).
Proof.
  intros E. unfold bind, load, reads, value. rewrite E.
  destruct (f c); reflexivity.
Qed.


Lemma bind_value {A B} (m : Mem A) (f : A -> Mem B) a :
  value m = Some a ->
  value (x <- m ;; f x) = value (f a) /\
  reads (x <- m ;; f x) = reads m ++ reads (f a).
Proof.
  destruct m as [t r]. simpl. intros ->. unfold bind, value, reads.
  destruct (f a). split; reflexivity.
Qed.

Lemma static_cast_int_id x :
  -2147483648 <= x < 2147483648 -> static_cast_int x = x.
Proof.
  intros Hx. unfold static_cast_int. rewrite Z.mod_small by lia. lia.
Qed.

(** ** The two scanning loops *)

Section ScanLemmas.
Context {C : Type} `{CharType C}.
Variable text : list C.

Lemma char_eqb_neq (a b : C) : char_eqb a b = false <-> a <> b.
Proof.
  split.
  - intros E Eab. apply char_eqb_eq in Eab. congruence.
  - intros N. destruct (char_eqb a b) eqn:E; [|reflexivity].
    apply char_eqb_eq in E. contradiction.
Qed.

(** The loops as the source writes them. *)
Lemma backward_eq low start :
  backward text low start =
  if low <? start then
    c <- load text start ;;
    if char_eqb c nl then ret start else backward text low (start - 1)
  else ret start.
Proof.
  unfold backward. destruct (Z.ltb_spec low start) as [Hlt|Hge].
  - replace (Z.to_nat (start - low)) with (S (Z.to_nat (start - 1 - low))) by lia.
    reflexivity.
  - replace (Z.to_nat (start - low)) with O by lia. reflexivity.
Qed.

Lemma forward_eq high end_ :
  forward text high end_ =
  if end_ <? high then
    c <- load text end_ ;;
    if char_eqb c nl then ret end_ else forward text high (end_ + 1)
  else ret end_.
Proof.
  unfold forward. destruct (Z.ltb_spec end_ high) as [Hlt|Hge].
  - replace (Z.to_nat (high - end_)) with (S (Z.to_nat (high - (end_ + 1)))) by lia.
    reflexivity.
  - replace (Z.to_nat (high - end_)) with O by lia. reflexivity.
Qed.



(** The backward loop stops on the nearest newline at or before [start]
    (and on it, not after it). *)
Lemma scan_backward_newline n start j :
  j <= start -> start - j <= Z.of_nat n ->
  deref text j = Some nl ->
  (forall k, j < k <= start -> exists c, deref text k = Some c /\ c <> nl) ->
  value (scan_backward text n start) = Some j.
Proof.
  revert start. induction n as [|k IH]; intros start Hj Hn Hnl Hmid.
  - simpl. f_equal. lia.
  - cbn [scan_backward]. destruct (Z.eq_dec start j) as [->|Hne].
    + rewrite (bind_load _ _ _ _ Hnl).
      replace (char_eqb nl nl) with true
        by (symmetry; apply char_eqb_eq; reflexivity).
      reflexivity.
    + destruct (Hmid start) as (c & Hc & Hcn); [lia|].
      rewrite (bind_load _ _ _ _ Hc).
      apply char_eqb_neq in Hcn. rewrite Hcn. cbn [value snd].
      apply IH; try lia; [exact Hnl|]. intros i Hi. apply Hmid. lia.
Qed.

(** The forward loop stops on the nearest newline at or after [end_]. *)
Lemma scan_forward_newline n end_ j :
  end_ <= j -> j - end_ <= Z.of_nat n ->
  deref text j = Some nl ->
  (forall k, end_ <= k < j -> exists c, deref text k = Some c /\ c <> nl) ->
  value (scan_forward text n end_) = Some j.
Proof.
  revert end_. induction n as [|k IH]; intros end_ Hj Hn Hnl Hmid.
  - simpl. f_equal. lia.
  - cbn [scan_forward]. destruct (Z.eq_dec end_ j) as [->|Hne].
    + rewrite (bind_load _ _ _ _ Hnl).
      replace (char_eqb nl nl) with true
        by (symmetry; apply char_eqb_eq; reflexivity).
      reflexivity.
    + destruct (Hmid end_) as (c & Hc & Hcn); [lia|].
      rewrite (bind_load _ _ _ _ Hc).
      apply char_eqb_neq in Hcn. rewrite Hcn. cbn [value snd].
      apply IH; try lia; [exact Hnl|]. intros i Hi. apply Hmid. lia.
Qed.

End ScanLemmas.

(** ** GetLineExtentFromPosition: what it returns and what it reads *)

Section LineExtentLemmas.
Context {C : Type} `{CharType C}.

Lemma deref_cons (c : C) (r : list C) i :
  0 < i -> deref (c :: r) i = deref r (i - 1).
Proof.
  intros Hi. change (c :: r) with ([c] ++ r).
  rewrite deref_app_r by (simpl; lia). reflexivity.
Qed.

(** On a buffer [l1 ++ nl :: l2 ++ nl :: l3] whose middle line [l2] has no
    newline, from a position inside [l2] and with both newlines in reach,
    the start the function reports is the offset of the newline before
    [l2], and the length counts that newline. *)
Lemma GetLineExtentFromPosition_middle_line
    (l1 l2 l3 : list C) (position maxOffset : Z) :
  let text := l1 ++ nl :: l2 ++ nl :: l3 in
  let a := Z.of_nat (length l1) in
  let b := Z.of_nat (length l2) in
  ~ In nl l2 ->
  Z.of_nat (length text) < 2147483648 ->
  a < position <= a + b ->
  position - maxOffset <= a ->
  a + 1 + b <= position + maxOffset ->
  value (GetLineExtentFromPosition text (Z.of_nat (length text)) position maxOffset)
  = Some (mkLineExtent true a (b + 1)).
Proof.
  intros text a b Hnl Hlen Hpos Hlo Hhi.
  assert (Htl : Z.of_nat (length text) = a + 1 + b + 1 + Z.of_nat (length l3)).
  { unfold text, a, b. rewrite length_app. cbn [length].
    rewrite length_app. cbn [length]. lia. }
  assert (Ha : deref text a = Some nl).
  { unfold text. rewrite deref_app_r by (fold a; lia).
    fold a. replace (a - a) with 0 by lia. reflexivity. }
  assert (Hmid : forall k, a < k <= a + b ->
                   exists c, deref text k = Some c /\ c <> nl).
  { intros k Hk. unfold text. rewrite deref_app_r by (fold a; lia). fold a.
    rewrite deref_cons by lia.
    rewrite deref_app_l by (fold b; lia).
    destruct (deref_in_range l2 (k - a - 1)) as [c Hc]; [fold b; lia|].
    exists c. split; [exact Hc|]. intros ->. apply Hnl.
    eapply deref_In; eassumption. }
  assert (Hb : deref text (a + 1 + b) = Some nl).
  { unfold text. rewrite deref_app_r by (fold a; lia). fold a.
    rewrite deref_cons by lia.
    rewrite deref_app_r by (fold b; lia). fold b.
    replace (a + 1 + b - a - 1 - b) with 0 by lia. reflexivity. }
  unfold GetLineExtentFromPosition.
  assert (Hstart : value (backward text (Z.max 0 (0 + position - maxOffset))
                            (0 + position)) = Some a).
  { unfold backward. apply scan_backward_newline; try lia; [exact Ha|].
    intros k Hk. apply Hmid. lia. }
  destruct (bind_value _
    (fun start =>
       end_ <- forward text (Z.min (0 + Z.of_nat (length text))
                               (0 + position + maxOffset)) (0 + position) ;;
       ret (mkLineExtent true (static_cast_int (start - 0))
              (static_cast_int (end_ - start)))) _ Hstart) as [-> _].
  assert (Hend : value (forward text (Z.min (0 + Z.of_nat (length text))
                                        (0 + position + maxOffset))
                          (0 + position)) = Some (a + 1 + b)).
  { unfold forward. apply scan_forward_newline; try lia; [exact Hb|].
    intros k Hk. apply Hmid. lia. }
  destruct (bind_value _
    (fun end_ => ret (mkLineExtent true (static_cast_int (a - 0))
                        (static_cast_int (end_ - a)))) _ Hend) as [-> _].
  cbn [ret value snd].
  rewrite !static_cast_int_id by lia.
  do 2 f_equal; lia.
Qed.


End LineExtentLemmas.

(** C1. On ["aaa\nbbb\nccc"], from position 5 (inside ["bbb"]) and with a
    radius of 100, both exports report the start 3, the offset of the newline
    that ends ["aaa"], and the length 4, the region ["\nbbb"]: not the start
    4 and the length 3 of ["bbb"]. *)
Theorem line_extent_starts_on_preceding_newline :
  value (Ascii_GetLineExtentFromPosition aaa_bbb_ccc 11 5 100)
    = Some (mkLineExtent true 3 4) /\
  value (Utf16_GetLineExtentFromPosition aaa_bbb_ccc_wide 11 5 100)
    = Some (mkLineExtent true 3 4) /\
  deref aaa_bbb_ccc 3 = Some x0a /\
  deref aaa_bbb_ccc_wide 3 = Some 10%N.
Proof. repeat split; reflexivity. Qed.

(** C2. From the position one past the end of ["abc"] the backward scan
    dereferences offset 3 = textLen, and from the position -1 the forward
    scan dereferences offset -1: both outside [[0, textLen)], in both
    exports; and with the radius 0 the position -1 comes back unclamped as
    the line start, against the function's assertion [low <= start]. *)
Theorem line_extent_reads_outside_buffer :
  Ascii_GetLineExtentFromPosition [x61; x62; x63] 3 3 1 = ([3], None) /\
  Ascii_GetLineExtentFromPosition [x61; x62; x63] 3 (-1) 2 = ([-1], None) /\
  Utf16_GetLineExtentFromPosition [97; 98; 99]%N 3 3 1 = ([3], None) /\
  Utf16_GetLineExtentFromPosition [97; 98; 99]%N 3 (-1) 2 = ([-1], None) /\
  value (Ascii_GetLineExtentFromPosition [x61; x62; x63] 3 (-1) 0)
    = Some (mkLineExtent true (-1) 0) /\
  line_extent_asserts (Z.max 0 (-1 - 0)) (Z.min 3 (-1 + 0)) (-1) (-1) = false.
Proof. repeat split; reflexivity. Qed.

(** ** Text_GetKind *)

Lemma Text_IsAscii_loop_value (pre body post : list byte) :
  value (Text_IsAscii_loop (pre ++ body ++ post) (length body)
           (Z.of_nat (length pre)))
  = Some (forallb is_ascii_byte body).
Proof.
  revert pre. induction body as [|b body IH]; intros pre.
  - reflexivity.
  - cbn [length Text_IsAscii_loop].
    assert (Hb : deref (pre ++ (b :: body) ++ post) (Z.of_nat (length pre)) = Some b).
    { rewrite deref_app_r by lia. rewrite Z.sub_diag. reflexivity. }
    rewrite (bind_load _ _ _ _ Hb). cbn [forallb]. unfold is_ascii_byte at 1.
    destruct (asciiLimit <? Byte.to_N b)%N; [reflexivity|].
    cbn [value snd negb andb].
    specialize (IH (pre ++ [b])).
    rewrite <- app_assoc in IH. cbn [app] in IH.
    rewrite length_app in IH. cbn [length] in IH.
    replace (Z.of_nat (length pre) + 1) with (Z.of_nat (length pre + 1)) by lia.
    exact IH.
Qed.

Lemma Text_IsAscii_value (pre body : list byte) :
  value (Text_IsAscii (pre ++ body) (Z.of_nat (length pre)) (Z.of_nat (length body)))
  = Some (forallb is_ascii_byte body).
Proof.
  unfold Text_IsAscii.
  replace (Z.to_nat (Z.of_nat (length pre) + Z.of_nat (length body)
                     - Z.of_nat (length pre))) with (length body) by lia.
  rewrite <- (app_nil_r body) at 1. apply Text_IsAscii_loop_value.
Qed.

(** Without three bytes there is no byte-order mark, whatever the bytes. *)
Lemma Text_HasUtf8Bom_short (text : list byte) :
  (length text < 3)%nat ->
  value (Text_HasUtf8Bom text (Z.of_nat (length text))) = Some false.
Proof.
  intros Hl. unfold Text_HasUtf8Bom.
  destruct (Z.leb_spec 3 (Z.of_nat (length text))); [lia|reflexivity].
Qed.

Lemma Text_HasUtf8Bom_value (b0 b1 b2 : byte) (rest : list byte) :
  let text := b0 :: b1 :: b2 :: rest in
  value (Text_HasUtf8Bom text (Z.of_nat (length text)))
  = Some (Byte.eqb b0 xef && Byte.eqb b1 xbb && Byte.eqb b2 xbf).
Proof.
  intros text. unfold Text_HasUtf8Bom.
  destruct (Z.leb_spec 3 (Z.of_nat (length text))) as [_|Hl];
    [|unfold text in Hl; cbn [length] in Hl; lia].
  unfold text.
  rewrite (bind_load (b0 :: b1 :: b2 :: rest) 0 b0) by reflexivity.
  destruct (Byte.eqb b0 xef); [|reflexivity].
  cbn [value snd].
  rewrite (bind_load (b0 :: b1 :: b2 :: rest) 1 b1) by reflexivity.
  destruct (Byte.eqb b1 xbb); [|reflexivity].
  cbn [value snd].
  rewrite (bind_load (b0 :: b1 :: b2 :: rest) 2 b2) by reflexivity.
  reflexivity.
Qed.

Lemma Text_GetKind_value (text : list byte) :
  value (Text_GetKind text (Z.of_nat (length text)))
  = Some (if has_bom text
          then if forallb is_ascii_byte (skipn 3 text)
               then AsciiWithUtf8Bom else Utf8WithBom
          else if forallb is_ascii_byte text then Ascii else Unknown).
Proof.
  assert (Hwhole : value (Text_IsAscii text 0 (Z.of_nat (length text)))
                   = Some (forallb is_ascii_byte text))
    by apply (Text_IsAscii_value [] text).
  assert (Hno : forall utf8,
             value (Text_HasUtf8Bom text (Z.of_nat (length text))) = Some utf8 ->
             utf8 = false ->
             value (Text_GetKind text (Z.of_nat (length text)))
             = Some (if forallb is_ascii_byte text then Ascii else Unknown)).
  { intros utf8 Hu ->. unfold Text_GetKind.
    destruct (bind_value _
      (fun utf8 : bool =>
         if utf8 then
           isAscii <- Text_IsAscii text 3 (Z.of_nat (length text) - 3) ;;
           if isAscii then ret AsciiWithUtf8Bom else ret Utf8WithBom
         else
           isAscii <- Text_IsAscii text 0 (Z.of_nat (length text)) ;;
           if isAscii then ret Ascii else ret Unknown) _ Hu) as [-> _].
    destruct (bind_value _
      (fun isAscii : bool => if isAscii then ret Ascii else ret Unknown)
      _ Hwhole) as [-> _].
    destruct (forallb is_ascii_byte text); reflexivity. }
  destruct text as [|b0 [|b1 [|b2 rest]]];
    try (cbn [has_bom]; apply (Hno false); [apply Text_HasUtf8Bom_short; simpl; lia|reflexivity]).
  pose proof (Text_HasUtf8Bom_value b0 b1 b2 rest) as Hu. cbv zeta in Hu.
  cbn [has_bom skipn].
  destruct (Byte.eqb b0 xef && Byte.eqb b1 xbb && Byte.eqb b2 xbf) eqn:E.
  - unfold Text_GetKind.
    destruct (bind_value _
      (fun utf8 : bool =>
         if utf8 then
           isAscii <- Text_IsAscii (b0 :: b1 :: b2 :: rest) 3
                        (Z.of_nat (length (b0 :: b1 :: b2 :: rest)) - 3) ;;
           if isAscii then ret AsciiWithUtf8Bom else ret Utf8WithBom
         else
           isAscii <- Text_IsAscii (b0 :: b1 :: b2 :: rest) 0
                        (Z.of_nat (length (b0 :: b1 :: b2 :: rest))) ;;
           if isAscii then ret Ascii else ret Unknown) _ Hu) as [-> _].
    assert (Hrest : value (Text_IsAscii (b0 :: b1 :: b2 :: rest) 3
                             (Z.of_nat (length (b0 :: b1 :: b2 :: rest)) - 3))
                    = Some (forallb is_ascii_byte rest)).
    { replace (Z.of_nat (length (b0 :: b1 :: b2 :: rest)) - 3)
        with (Z.of_nat (length rest)) by (cbn [length]; lia).
      apply (Text_IsAscii_value [b0; b1; b2] rest). }
    destruct (bind_value _
      (fun isAscii : bool => if isAscii then ret AsciiWithUtf8Bom else ret Utf8WithBom)
      _ Hrest) as [-> _].
    destruct (forallb is_ascii_byte rest); reflexivity.
  - apply (Hno false); [exact Hu|reflexivity].
Qed.

Lemma forallb_is_ascii_true (l : list byte) :
  Forall (fun b => (Byte.to_N b <= 127)%N) l -> forallb is_ascii_byte l = true.
Proof.
  intros Hl. apply forallb_forall. intros b Hb.
  rewrite Forall_forall in Hl. specialize (Hl b Hb).
  unfold is_ascii_byte, asciiLimit. apply negb_true_iff. apply N.ltb_ge. exact Hl.
Qed.

Lemma forallb_is_ascii_false (l : list byte) :
  Exists (fun b => (128 <= Byte.to_N b)%N) l -> forallb is_ascii_byte l = false.
Proof.
  intros Hl. apply Exists_exists in Hl. destruct Hl as (b & Hb & Hge).
  destruct (forallb is_ascii_byte l) eqn:E; [|reflexivity].
  rewrite forallb_forall in E. specialize (E b Hb).
  unfold is_ascii_byte, asciiLimit in E. apply negb_true_iff in E.
  apply N.ltb_ge in E. lia.
Qed.

Lemma has_bom_iff (text : list byte) :
  has_bom text = true <-> exists rest, text = xef :: xbb :: xbf :: rest.
Proof.
  split.
  - destruct text as [|b0 [|b1 [|b2 rest]]]; cbn [has_bom]; try discriminate.
    intros E. apply andb_true_iff in E. destruct E as [E E2].
    apply andb_true_iff in E. destruct E as [E0 E1].
    apply byte_dec_bl in E0, E1, E2. subst. eauto.
  - intros [rest ->]. reflexivity.
Qed.

(** C4. On a buffer and its length, [Text_GetKind] returns
    [AsciiWithUtf8Bom] when the buffer starts with EF BB BF and every byte
    after it is at most 0x7F, [Utf8WithBom] when it starts with EF BB BF and
    some byte after it is at least 0x80, [Ascii] when it does not start with
    EF BB BF and every byte is at most 0x7F (the empty buffer among them),
    and [Unknown] when it does not start with EF BB BF and some byte is at
    least 0x80. *)
Theorem Text_GetKind_classifies (text : list byte) :
  let kind := value (Text_GetKind text (Z.of_nat (length text))) in
  let bom_then rest := text = xef :: xbb :: xbf :: rest in
  let all_ascii := Forall (fun b => (Byte.to_N b <= 127)%N) in
  let some_high := Exists (fun b => (128 <= Byte.to_N b)%N) in
  (forall rest, bom_then rest -> all_ascii rest -> kind = Some AsciiWithUtf8Bom) /\
  (forall rest, bom_then rest -> some_high rest -> kind = Some Utf8WithBom) /\
  ((forall rest, ~ bom_then rest) -> all_ascii text -> kind = Some Ascii) /\
  ((forall rest, ~ bom_then rest) -> some_high text -> kind = Some Unknown) /\
  (text = [] -> kind = Some Ascii).
Proof.
  cbv zeta. rewrite Text_GetKind_value.
  assert (Hnb : (forall rest, text <> xef :: xbb :: xbf :: rest) -> has_bom text = false).
  { intros Hn. destruct (has_bom text) eqn:E; [|reflexivity].
    apply has_bom_iff in E. destruct E as [rest E]. destruct (Hn rest E). }
  repeat split.
  - intros rest -> Ha. cbn [has_bom skipn]. cbn.
    rewrite (forallb_is_ascii_true _ Ha). reflexivity.
  - intros rest -> Hh. cbn [has_bom skipn]. cbn.
    rewrite (forallb_is_ascii_false _ Hh). reflexivity.
  - intros Hn Ha. rewrite (Hnb Hn), (forallb_is_ascii_true _ Ha). reflexivity.
  - intros Hn Hh. rewrite (Hnb Hn), (forallb_is_ascii_false _ Hh). reflexivity.
  - intros ->. reflexivity.
Qed.

Lemma Text_GetKind_classifies_witness :
  value (Text_GetKind [xef; xbb; xbf; x68; x69] 5) = Some AsciiWithUtf8Bom /\
  value (Text_GetKind [xef; xbb; xbf; x68; xc3; xa9] 6) = Some Utf8WithBom /\
  value (Text_GetKind [x68; x69] 2) = Some Ascii /\
  value (Text_GetKind [x68; xc3; xa9] 3) = Some Unknown /\
  value (Text_GetKind [] 0) = Some Ascii.
Proof.
  split; [|split; [|split; [|split]]].
  - apply (proj1 (Text_GetKind_classifies [xef; xbb; xbf; x68; x69]) [x68; x69]).
    + reflexivity.
    + repeat constructor; vm_compute; discriminate.
  - apply (proj1 (proj2 (Text_GetKind_classifies [xef; xbb; xbf; x68; xc3; xa9]))
             [x68; xc3; xa9]).
    + reflexivity.
    + apply Exists_cons_tl, Exists_cons_hd. vm_compute. discriminate.
  - apply (proj1 (proj2 (proj2 (Text_GetKind_classifies [x68; x69])))).
    + intros rest. discriminate.
    + repeat constructor; vm_compute; discriminate.
  - apply (proj1 (proj2 (proj2 (proj2 (Text_GetKind_classifies [x68; xc3; xa9]))))).
    + intros rest. discriminate.
    + apply Exists_cons_tl, Exists_cons_hd. vm_compute. discriminate.
  - apply (proj2 (proj2 (proj2 (proj2 (Text_GetKind_classifies []))))). reflexivity.
Defined.

(** C9. A buffer of fewer than three bytes is classified [Ascii] or
    [Unknown], never as a kind with a byte-order mark; the two bytes EF BB,
    a proper prefix of the mark, are [Unknown]. *)
Theorem Text_GetKind_short_buffer (text : list byte) :
  (length text < 3)%nat ->
  (value (Text_GetKind text (Z.of_nat (length text))) = Some Ascii \/
   value (Text_GetKind text (Z.of_nat (length text))) = Some Unknown) /\
  value (Text_GetKind [xef; xbb] 2) = Some Unknown.
Proof.
  intros Hl. split; [|reflexivity].
  rewrite Text_GetKind_value.
  assert (has_bom text = false) as ->
    by (destruct text as [|b0 [|b1 [|b2 rest]]]; try reflexivity; simpl in Hl; lia).
  destruct (forallb is_ascii_byte text); [left|right]; reflexivity.
Qed.

Lemma Text_GetKind_short_buffer_witness :
  (value (Text_GetKind [xef] 1) = Some Ascii \/
   value (Text_GetKind [xef] 1) = Some Unknown) /\
  value (Text_GetKind [xef; xbb] 2) = Some Unknown.
Proof. apply (Text_GetKind_short_buffer [xef]). simpl. lia. Defined.

(** ** Ascii_Compare *)

Lemma byte_to_N_inj (x y : byte) : Byte.to_N x = Byte.to_N y -> x = y.
Proof.
  intros E. pose proof (Byte.of_to_N x) as Hx. pose proof (Byte.of_to_N y) as Hy.
  rewrite E in Hx. congruence.
Qed.

(** [memcmp] on bytes that lie inside both buffers returns 0 exactly when
    the compared bytes are the same. *)
Lemma memcmp_from_spec (n : nat) :
  forall (a b pa pb : list byte),
    length pa = length pb ->
    (n <= length a)%nat -> (n <= length b)%nat ->
    exists r, memcmp_from (pa ++ a) (pb ++ b) n (Z.of_nat (length pa)) = Some r /\
              (r = 0 <-> firstn n a = firstn n b).
Proof.
  induction n as [|k IH]; intros a b pa pb Hp Ha Hb.
  - exists 0. split; [reflexivity|]. split; reflexivity.
  - destruct a as [|x a]; [simpl in Ha; lia|].
    destruct b as [|y b]; [simpl in Hb; lia|].
    cbn [memcmp_from].
    assert (Hx : deref (pa ++ x :: a) (Z.of_nat (length pa)) = Some x).
    { rewrite deref_app_r by lia. rewrite Z.sub_diag. reflexivity. }
    assert (Hy : deref (pb ++ y :: b) (Z.of_nat (length pa)) = Some y).
    { rewrite Hp. rewrite deref_app_r by lia. rewrite Z.sub_diag. reflexivity. }
    rewrite Hx, Hy. destruct (Byte.eqb x y) eqn:E.
    + apply byte_dec_bl in E. subst y.
      destruct (IH a b (pa ++ [x]) (pb ++ [x])) as (r & Hr & Hiff).
      * rewrite !length_app. simpl. lia.
      * simpl in Ha. lia.
      * simpl in Hb. lia.
      * rewrite <- !app_assoc in Hr. cbn [app] in Hr.
        rewrite length_app in Hr. cbn [length] in Hr.
        replace (Z.of_nat (length pa) + 1) with (Z.of_nat (length pa + 1)) by lia.
        exists r. split; [exact Hr|]. rewrite Hiff. rewrite !firstn_cons.
        split; [intros ->; reflexivity | intros Ec; injection Ec; auto].
    + apply Byte.eqb_false in E.
      exists (Z.of_N (Byte.to_N x) - Z.of_N (Byte.to_N y)). split; [reflexivity|].
      rewrite !firstn_cons. split.
      * intros Hz. exfalso. apply E. apply byte_to_N_inj. lia.
      * intros Ec. injection Ec as Exy _. contradiction.
Qed.

(** C6. On buffers [a] and [b] that hold at least [lenA] and [lenB] bytes,
    [Ascii_Compare] returns, and it returns true exactly when [lenA = lenB]
    and the [lenA] bytes of [a] are the [lenB] bytes of [b], one by one;
    with a different length or a different byte it returns false. *)
Theorem Ascii_Compare_true_iff (a b : list byte) (lenA lenB : N) :
  (N.to_nat lenA <= length a)%nat ->
  (N.to_nat lenB <= length b)%nat ->
  exists r, Ascii_Compare a lenA b lenB = Some r /\
            (r = true <->
             lenA = lenB /\ firstn (N.to_nat lenA) a = firstn (N.to_nat lenB) b) /\
            (r = false <->
             lenA <> lenB \/ firstn (N.to_nat lenA) a <> firstn (N.to_nat lenB) b).
Proof.
  intros Ha Hb. unfold Ascii_Compare.
  destruct (N.eqb_spec lenA lenB) as [<-|Hne]; cbn [negb].
  - destruct (memcmp_from_spec (N.to_nat lenA) a b [] [] eq_refl Ha Hb)
      as (r & Hr & Hiff).
    cbn [app length] in Hr. unfold memcmp. change (Z.of_nat 0) with 0 in Hr.
    rewrite Hr. exists (r =? 0). split; [reflexivity|].
    destruct (Z.eqb_spec r 0) as [Hz|Hnz];
      intuition (try discriminate; try congruence).
  - exists false. split; [reflexivity|].
    intuition (try discriminate; try congruence).
Qed.

Lemma Ascii_Compare_true_iff_witness :
  exists r, Ascii_Compare [x61; x62] 2 [x61; x63] 2 = Some r /\
            (r = true <-> 2%N = 2%N /\ [x61; x62] = [x61; x63]) /\
            (r = false <-> 2%N <> 2%N \/ [x61; x62] <> [x61; x63]).
Proof.
  apply (Ascii_Compare_true_iff [x61; x62] [x61; x63] 2 2); simpl; lia.
Defined.

(** ** std::search *)

Section StdSearchLemmas.
Context {T : Type}.
Variable p : T -> T -> bool.
Variable R : T -> T -> Prop.
Hypothesis p_R : forall c s, p c s = true <-> R c s.

Lemma std_search_at_iff (pattern text : list T) :
  std_search_at p text pattern = true <->
  exists mid post, text = mid ++ post /\ Forall2 R mid pattern.
Proof.
  revert text. induction pattern as [|s pattern IH]; intros text.
  - split; [|intros _; destruct text; reflexivity].
    intros _. exists [], text. split; [reflexivity|constructor].
  - destruct text as [|c text].
    + split; [discriminate|].
      intros (mid & post & E & F). inversion F; subst. discriminate.
    + cbn [std_search_at]. rewrite andb_true_iff, p_R, IH. split.
      * intros (Hcs & mid & post & -> & F).
        exists (c :: mid), post. split; [reflexivity|constructor; assumption].
      * intros (mid & post & E & F). inversion F; subst.
        injection E as -> ->. split; [assumption|eauto].
Qed.

Lemma occurs_at_0 (text pattern : list T) :
  occurs_at R text pattern 0 <-> std_search_at p text pattern = true.
Proof.
  rewrite std_search_at_iff. split.
  - intros (pre & mid & post & -> & Hl & F).
    destruct pre; [|discriminate]. exists mid, post. split; [reflexivity|assumption].
  - intros (mid & post & -> & F). exists [], mid, post.
    split; [reflexivity|split; [reflexivity|assumption]].
Qed.

Lemma occurs_at_S (c : T) (text pattern : list T) (i : nat) :
  occurs_at R (c :: text) pattern (S i) <-> occurs_at R text pattern i.
Proof.
  split.
  - intros (pre & mid & post & E & Hl & F).
    destruct pre as [|c' pre]; [discriminate|].
    injection E as -> ->. injection Hl as Hl. exists pre, mid, post. auto.
  - intros (pre & mid & post & -> & Hl & F).
    exists (c :: pre), mid, post. simpl. auto.
Qed.

(** An occurrence lies inside the text. *)
Lemma occurs_at_bound (text pattern : list T) (i : nat) :
  occurs_at R text pattern i -> (i + length pattern <= length text)%nat.
Proof.
  intros (pre & mid & post & -> & <- & F).
  apply Forall2_length in F. rewrite !length_app. lia.
Qed.

(** [std::search] returns the first offset with an occurrence, the end of
    the text if there is none. *)
Lemma std_search_spec (pattern text : list T) (first : Z) :
  exists k : nat,
    std_search p text pattern first = first + Z.of_nat k /\
    (k <= length text)%nat /\
    (forall j, (j < k)%nat -> ~ occurs_at R text pattern j) /\
    (occurs_at R text pattern k \/
     (k = length text /\ forall j, ~ occurs_at R text pattern j)).
Proof.
  revert first. induction text as [|c text IH]; intros first.
  - exists O. cbn [std_search length].
    split; [destruct (std_search_at p [] pattern); lia|].
    split; [lia|]. split; [intros j Hj; lia|].
    destruct (std_search_at p [] pattern) eqn:E.
    + left. apply occurs_at_0. exact E.
    + right. split; [reflexivity|]. intros j Hj.
      pose proof (occurs_at_bound _ _ _ Hj) as Hb. simpl in Hb.
      assert (j = O) by lia. subst j.
      apply occurs_at_0 in Hj. congruence.
  - cbn [std_search]. destruct (std_search_at p (c :: text) pattern) eqn:E.
    + exists O. split; [lia|]. split; [lia|]. split; [intros j Hj; lia|].
      left. apply occurs_at_0. exact E.
    + destruct (IH (first + 1)) as (k & Hk & Hle & Hmin & Hend).
      exists (S k). split; [lia|]. split; [simpl; lia|].
      assert (H0 : ~ occurs_at R (c :: text) pattern 0).
      { intros Ho. apply occurs_at_0 in Ho. congruence. }
      split.
      * intros [|j] Hj; [exact H0|]. rewrite occurs_at_S. apply Hmin. lia.
      * destruct Hend as [Ho|[-> Hno]].
        -- left. apply occurs_at_S. exact Ho.
        -- right. split; [reflexivity|].
           intros [|j]; [exact H0|]. rewrite occurs_at_S. apply Hno.
Qed.

End StdSearchLemmas.

(** ** Utf16_Search *)

Section Utf16SearchTheorems.
Variable kMatchCase : Z.
Variable toupper : wchar_t -> wchar_t.

Lemma range_whole {T} (buf : list T) :
  range buf (N.of_nat (length buf)) = Some buf.
Proof.
  unfold range. rewrite N.leb_refl, Nat2N.id, firstn_all. reflexivity.
Qed.

Lemma char_equal_match (c s : wchar_t) : char_equal c s = true <-> c = s.
Proof. apply N.eqb_eq. Qed.

Lemma char_equal_icase_match (c s : wchar_t) :
  char_equal_icase toupper c s = true <-> toupper c = toupper s.
Proof. apply N.eqb_eq. Qed.

(** C5. On a text and a pattern that is not empty, [Utf16_Search] returns
    the offset of the leftmost occurrence of the pattern, where with the
    match-case bit set a pattern character matches the text character it
    equals and without it the one with the same uppercase conversion; it
    returns the null pointer exactly when there is no occurrence. *)
Theorem Utf16_Search_first_occurrence
    (text pattern : list wchar_t) (options : Z) :
  pattern <> [] ->
  let found :=
    Utf16_Search kMatchCase toupper
      text (N.of_nat (length text)) pattern (N.of_nat (length pattern)) options in
  let occ := occurs_at (chars_match kMatchCase toupper options) text pattern in
  ((exists i : nat,
      found = Some (text_plus (Z.of_nat i)) /\ occ i /\
      forall j, (j < i)%nat -> ~ occ j) \/
   (found = Some nullptr /\ forall i, ~ occ i)) /\
  (found = Some nullptr <-> ~ exists i, occ i).
Proof.
  intros Hne found occ.
  assert (Hmain :
    exists k : nat,
      (k <= length text)%nat /\
      found = (if 0 + Z.of_nat k =? 0 + Z.of_N (N.of_nat (length text))
               then Some nullptr else Some (text_plus (0 + Z.of_nat k))) /\
      (forall j, (j < k)%nat -> ~ occ j) /\
      (occ k \/ (k = length text /\ forall j, ~ occ j))).
  { unfold found, occ, Utf16_Search, chars_match. rewrite !range_whole.
    destruct (negb (Z.land options kMatchCase =? 0)).
    - destruct (std_search_spec char_equal eq char_equal_match pattern text 0)
        as (k & -> & Hle & Hmin & Hend).
      exists k. auto.
    - destruct (std_search_spec (char_equal_icase toupper)
                  (fun c s => toupper c = toupper s)
                  char_equal_icase_match pattern text 0)
        as (k & -> & Hle & Hmin & Hend).
      exists k. auto. }
  destruct Hmain as (k & Hle & Hfound & Hmin & Hend).
  assert (Hcases :
    (exists i : nat,
        found = Some (text_plus (Z.of_nat i)) /\ occ i /\
        forall j, (j < i)%nat -> ~ occ j) \/
    (found = Some nullptr /\ forall i, ~ occ i)).
  { destruct Hend as [Ho|[-> Hno]].
    - left. exists k. split; [|split; assumption].
      pose proof (occurs_at_bound _ _ _ _ Ho) as Hb.
      assert (0 < length pattern)%nat
        by (destruct pattern; [contradiction Hne; reflexivity|simpl; lia]).
      rewrite Hfound.
      destruct (Z.eqb_spec (0 + Z.of_nat k) (0 + Z.of_N (N.of_nat (length text))));
        [lia|]. reflexivity.
    - right. split; [|exact Hno]. rewrite Hfound.
      destruct (Z.eqb_spec (0 + Z.of_nat (length text))
                  (0 + Z.of_N (N.of_nat (length text)))); [reflexivity|lia]. }
  split; [exact Hcases|].
  destruct Hcases as [(i & Hi & Ho & _)|[Hn Hno]].
  - split.
    + intros E. rewrite Hi in E. discriminate.
    + intros Hn. exfalso. apply Hn. exists i. exact Ho.
  - split; [|intros _; exact Hn].
    intros _ [i Ho]. exact (Hno i Ho).
Qed.

(** C10. With [patternLength = 0] the search succeeds at offset 0 of a text
    that is not empty, and returns the null pointer on the empty text. *)
Theorem Utf16_Search_empty_pattern
    (text : list wchar_t) (textLength : N) (pattern : list wchar_t) (options : Z) :
  (N.to_nat textLength <= length text)%nat ->
  ((0 < textLength)%N ->
   Utf16_Search kMatchCase toupper text textLength pattern 0 options
   = Some (text_plus 0)) /\
  (textLength = 0%N ->
   Utf16_Search kMatchCase toupper text textLength pattern 0 options
   = Some nullptr).
Proof.
  intros Hl.
  assert (Hgen :
    Utf16_Search kMatchCase toupper text textLength pattern 0 options
    = if 0 =? 0 + Z.of_N textLength then Some nullptr else Some (text_plus 0)).
  { unfold Utf16_Search, range.
    destruct (N.leb_spec textLength (N.of_nat (length text))) as [_|Hgt]; [|lia].
    cbn [N.leb N.compare N.to_nat firstn].
    destruct (N.of_nat (length pattern)); cbn [N.compare];
      destruct (negb (Z.land options kMatchCase =? 0));
      destruct (firstn (N.to_nat textLength) text); reflexivity. }
  rewrite Hgen. split.
  - intros Hpos. destruct (Z.eqb_spec 0 (0 + Z.of_N textLength)); [lia|reflexivity].
  - intros ->. reflexivity.
Qed.

End Utf16SearchTheorems.

Lemma Utf16_Search_first_occurrence_witness :
  let text := [88; 88; 65; 66; 67; 89]%N in
  let pattern := [97; 98; 99]%N in
  let found := Utf16_Search 1 toupper_C text 6 pattern 3 0 in
  let occ := occurs_at (chars_match 1 toupper_C 0) text pattern in
  ((exists i : nat,
      found = Some (text_plus (Z.of_nat i)) /\ occ i /\
      forall j, (j < i)%nat -> ~ occ j) \/
   (found = Some nullptr /\ forall i, ~ occ i)) /\
  (found = Some nullptr <-> ~ exists i, occ i).
Proof.
  apply (Utf16_Search_first_occurrence 1 toupper_C
           [88; 88; 65; 66; 67; 89]%N [97; 98; 99]%N 0).
  discriminate.
Defined.

Lemma Utf16_Search_empty_pattern_witness :
  ((0 < 2)%N -> Utf16_Search 1 toupper_C [88; 89]%N 2 [97]%N 0 1 = Some (text_plus 0)) /\
  (2%N = 0%N -> Utf16_Search 1 toupper_C [88; 89]%N 2 [97]%N 0 1 = Some nullptr).
Proof.
  apply (Utf16_Search_empty_pattern 1 toupper_C [88; 89]%N 2 [97]%N 1).
  simpl. lia.
Defined.

(** ** AsciiSearchAlgorithm_Create *)

Section CreateTheorems.
Variable kMatchCase : Z.
Variable EngineState : Type.
Variable constructor : SearchClass -> EngineState.
Variable PreProcess :
  SearchClass -> EngineState -> list byte -> Z -> Z -> SearchCreateResult ->
  EngineState * SearchCreateResult.

Local Abbreviation Create :=
  (AsciiSearchAlgorithm_Create kMatchCase EngineState constructor PreProcess).
Local Abbreviation PreProcessed c pattern patternLen options :=
  (PreProcess c (constructor c) pattern patternLen options SearchCreateResult_new).

(** The three ways out of the function. *)
Lemma Create_cases kind pattern patternLen options :
  (Create_switch kMatchCase kind options = None /\
   Create kind pattern patternLen options
   = mkCreateOutcome EngineState None
       (mkSearchCreateResult E_OUTOFMEMORY "Out of memory") []) \/
  (exists c, Create_switch kMatchCase kind options = Some c /\
     FAILED (HResult (snd (PreProcessed c pattern patternLen options))) = true /\
     Create kind pattern patternLen options
     = mkCreateOutcome EngineState None
         (snd (PreProcessed c pattern patternLen options)) [New c; Delete c]) \/
  (exists c, Create_switch kMatchCase kind options = Some c /\
     FAILED (HResult (snd (PreProcessed c pattern patternLen options))) = false /\
     Create kind pattern patternLen options
     = mkCreateOutcome EngineState
         (Some (c, fst (PreProcessed c pattern patternLen options)))
         (snd (PreProcessed c pattern patternLen options)) [New c]).
Proof.
  unfold AsciiSearchAlgorithm_Create. cbv zeta.
  destruct (Create_switch kMatchCase kind options) as [c|];
    [|left; split; reflexivity].
  right. destruct (PreProcessed c pattern patternLen options) as [state r] eqn:E.
  destruct (FAILED (HResult r)) eqn:F; [left|right]; exists c;
    rewrite E; cbn [fst snd]; repeat split; assumption.
Qed.

(** C3, as the code has it. The engine that is constructed is fixed by
    the kind the caller passed, whatever the pattern and its length:
    [kBndm32] gives the narrow bit-parallel engine and [kBndm64] the wide
    one, each with the comparer the match-case bit selects, and
    [kBoyerMoore] the general sub-linear engine. *)
Theorem Create_selects_by_kind (pattern : list byte) (patternLen options : Z) :
  constructed EngineState (Create kBndm32 pattern patternLen options)
    = Some (Bndm32Search (comparer kMatchCase options)) /\
  constructed EngineState (Create kBndm64 pattern patternLen options)
    = Some (Bndm64Search (comparer kMatchCase options)) /\
  constructed EngineState (Create kBoyerMoore pattern patternLen options)
    = Some BoyerMooreSearch /\
  forall kind pattern' patternLen',
    constructed EngineState (Create kind pattern patternLen options)
    = Create_switch kMatchCase kind options /\
    constructed EngineState (Create kind pattern patternLen options)
    = constructed EngineState (Create kind pattern' patternLen' options).
Proof.
  assert (Hsw : forall kind p len,
            constructed EngineState (Create kind p len options)
            = Create_switch kMatchCase kind options).
  { intros kind p len.
    destruct (Create_cases kind p len options)
      as [[Hs ->]|[(c & Hs & _ & ->)|(c & Hs & _ & ->)]];
      rewrite Hs; reflexivity. }
  rewrite !Hsw. unfold Create_switch, comparer. cbn.
  split; [destruct (negb (Z.land options kMatchCase =? 0)); reflexivity|].
  split; [destruct (negb (Z.land options kMatchCase =? 0)); reflexivity|].
  split; [reflexivity|].
  intros kind pattern' patternLen'. rewrite !Hsw. split; reflexivity.
Qed.

(** C7. The call returns an instance and leaves a result record that
    does not report failure, or it returns null and leaves a record with
    a failing code, the one and the message that [SetError] stored for
    out of memory or the ones that [PreProcess] left; and once [PreProcess]
    has left a failing code no instance is returned and the engine that was
    constructed is deleted. *)
Theorem Create_instance_or_error kind pattern patternLen options :
  let o := Create kind pattern patternLen options in
  ((exists instance, returned EngineState o = Some instance /\
      FAILED (HResult (searchCreateResult EngineState o)) = false /\
      heap_events EngineState o = [New (fst instance)]) \/
   (returned EngineState o = None /\
    FAILED (HResult (searchCreateResult EngineState o)) = true /\
    ((searchCreateResult EngineState o
      = mkSearchCreateResult E_OUTOFMEMORY "Out of memory" /\
      heap_events EngineState o = []) \/
     (exists c, Create_switch kMatchCase kind options = Some c /\
        searchCreateResult EngineState o
        = snd (PreProcessed c pattern patternLen options) /\
        heap_events EngineState o = [New c; Delete c])))) /\
  (forall c, Create_switch kMatchCase kind options = Some c ->
     FAILED (HResult (snd (PreProcessed c pattern patternLen options))) = true ->
     returned EngineState o = None /\
     heap_events EngineState o = [New c; Delete c]).
Proof.
  cbv zeta.
  destruct (Create_cases kind pattern patternLen options)
    as [[Hs ->]|[(c & Hs & F & ->)|(c & Hs & F & ->)]]; cbn [returned searchCreateResult heap_events].
  - split.
    + right. split; [reflexivity|]. split; [reflexivity|]. left. auto.
    + intros c Hc. congruence.
  - split.
    + right. split; [reflexivity|]. split; [exact F|]. right. exists c. auto.
    + intros c' Hc' _. assert (c' = c) by congruence. subst c'. auto.
  - split.
    + left. eexists. split; [reflexivity|]. split; [exact F|reflexivity].
    + intros c' Hc' F'. assert (c' = c) by congruence. subst c'. congruence.
Qed.

(** C8. A kind that is none of the six constants leaves [result] null:
    the call returns null and the record holds [E_OUTOFMEMORY] and the
    message "Out of memory", whatever the pattern and the options; nothing
    was constructed. *)
Theorem Create_unknown_kind kind pattern patternLen options :
  ~ In kind [kStrStr; kBndm32; kBndm64; kBoyerMoore; kRegex; kRe2] ->
  Create kind pattern patternLen options
  = mkCreateOutcome EngineState None
      (mkSearchCreateResult E_OUTOFMEMORY "Out of memory") [].
Proof.
  intros Hk.
  assert (Hs : Create_switch kMatchCase kind options = None).
  { unfold Create_switch.
    repeat match goal with
           | |- context [?a =? ?b] =>
               destruct (Z.eqb_spec a b) as [E|_];
               [exfalso; apply Hk; rewrite E; simpl; tauto|]
           end.
    reflexivity. }
  unfold AsciiSearchAlgorithm_Create. rewrite Hs. reflexivity.
Qed.

End CreateTheorems.

(** C3, as the claim words it, fails: asked for [kBndm32] with a pattern of
    40 bytes the call constructs the narrow engine, where a selection by
    length gives the wide one. *)
Lemma Create_selection_not_by_length :
  constructed unit (Create_example kBndm32 (repeat x61 40) 40 1)
    = Some (Bndm32Search CaseSensitive) /\
  spec_variant_by_length 40 = WideBitParallel /\
  constructed_variant (Create_example kBndm32 (repeat x61 3) 3 1)
    <> constructed_variant (Create_example kBndm64 (repeat x61 3) 3 1) /\
  ~ selection_by_pattern_length.
Proof.
  split; [reflexivity|]. split; [reflexivity|]. split; [discriminate|].
  intros Hsel.
  specialize (Hsel 1 unit (fun _ => tt) PreProcess_example kBndm32 (repeat x61 40) 1).
  assert (Hin : In kBndm32 [kBndm32; kBndm64; kBoyerMoore]) by (simpl; auto).
  specialize (Hsel Hin). vm_compute in Hsel. discriminate.
Qed.

Lemma Create_instance_or_error_witness :
  let o := Create_example kRegex [] 0 0 in
  returned unit o = None /\ heap_events unit o = [New RegexSearch; Delete RegexSearch].
Proof.
  apply (proj2 (Create_instance_or_error 1 unit (fun _ => tt) PreProcess_example
                  kRegex [] 0 0) RegexSearch); reflexivity.
Defined.

Lemma Create_unknown_kind_witness :
  Create_example 7 [x61] 1 1
  = mkCreateOutcome unit None (mkSearchCreateResult E_OUTOFMEMORY "Out of memory") [].
Proof.
  apply (Create_unknown_kind 1 unit (fun _ => tt) PreProcess_example 7 [x61] 1 1).
  simpl. unfold kStrStr, kBndm32, kBndm64, kBoyerMoore, kRegex, kRe2. lia.
Defined.


(** * Further properties of the exported functions *)

(** ** GetLineExtentFromPosition: the region it returns *)

Section LineExtentRegion.
Context {C : Type} `{CharType C}.
Variable text : list C.

(** The backward loop inside the buffer: where it stops, why, and what it
    stepped over. *)
Lemma scan_backward_run n start :
  Z.of_nat n <= start < Z.of_nat (length text) ->
  exists r, value (scan_backward text n start) = Some r /\
            start - Z.of_nat n <= r <= start /\
            (r = start - Z.of_nat n \/ deref text r = Some nl) /\
            (forall i, r < i <= start ->
                       exists c, deref text i = Some c /\ c <> nl).
Proof.
  revert start. induction n as [|k IH]; intros start Hs.
  - exists start. simpl. repeat split; lia.
  - destruct (deref_in_range text start) as [c Hc]; [lia|].
    cbn [scan_backward]. rewrite (bind_load _ _ _ _ Hc).
    destruct (char_eqb c nl) eqn:E.
    + apply char_eqb_eq in E. subst c.
      exists start. simpl. repeat split; try lia. right; exact Hc.
    + apply char_eqb_neq in E.
      destruct (IH (start - 1)) as (r & Hr & Hb & Hstop & Hover); [lia|].
      exists r. cbn [value snd]. split; [exact Hr|]. split; [lia|].
      split; [destruct Hstop; [left; lia|right; assumption]|].
      intros i Hi. destruct (Z.eq_dec i start) as [->|Hne]; [eauto|].
      apply Hover. lia.
Qed.

(** The forward loop inside the buffer. *)
Lemma scan_forward_run n end_ :
  0 <= end_ -> end_ + Z.of_nat n <= Z.of_nat (length text) ->
  exists r, value (scan_forward text n end_) = Some r /\
            end_ <= r <= end_ + Z.of_nat n /\
            (r = end_ + Z.of_nat n \/ deref text r = Some nl) /\
            (forall i, end_ <= i < r ->
                       exists c, deref text i = Some c /\ c <> nl).
Proof.
  revert end_. induction n as [|k IH]; intros end_ H0 Hs.
  - exists end_. simpl. repeat split; lia.
  - destruct (deref_in_range text end_) as [c Hc]; [lia|].
    cbn [scan_forward]. rewrite (bind_load _ _ _ _ Hc).
    destruct (char_eqb c nl) eqn:E.
    + apply char_eqb_eq in E. subst c.
      exists end_. simpl. repeat split; try lia. right; exact Hc.
    + apply char_eqb_neq in E.
      destruct (IH (end_ + 1)) as (r & Hr & Hb & Hstop & Hover); [lia|lia|].
      exists r. cbn [value snd]. split; [exact Hr|]. split; [lia|].
      split; [destruct Hstop; [left; lia|right; assumption]|].
      intros i Hi. destruct (Z.eq_dec i end_) as [->|Hne]; [eauto|].
      apply Hover. lia.
Qed.

(** One run of the function from a position inside the buffer and with a
    radius that is not negative: the two pointers the loops leave. *)
Lemma line_extent_run (position maxOffset : Z) :
  let textLen := Z.of_nat (length text) in
  let low := Z.max 0 (position - maxOffset) in
  let high := Z.min textLen (position + maxOffset) in
  0 <= position < textLen ->
  0 <= maxOffset ->
  exists start end_,
    value (GetLineExtentFromPosition text textLen position maxOffset)
    = Some (mkLineExtent true (static_cast_int (start - 0))
              (static_cast_int (end_ - start))) /\
    low <= start <= position /\
    (start = low \/ deref text start = Some nl) /\
    (forall i, start < i <= position ->
               exists c, deref text i = Some c /\ c <> nl) /\
    position <= end_ <= high /\
    (end_ = high \/ deref text end_ = Some nl) /\
    (forall i, position <= i < end_ ->
               exists c, deref text i = Some c /\ c <> nl).
Proof.
  intros textLen low high Hpos Hm.
  unfold GetLineExtentFromPosition.
  replace (Z.max 0 (0 + position - maxOffset)) with low by (unfold low; f_equal; lia).
  replace (Z.min (0 + textLen) (0 + position + maxOffset)) with high
    by (unfold high; f_equal; lia).
  replace (0 + position) with position by lia.
  unfold backward, forward.
  destruct (scan_backward_run (Z.to_nat (position - low)) position)
    as (start & Hs & Hsb & Hsstop & Hsover); [fold textLen; lia|].
  destruct (scan_forward_run (Z.to_nat (high - position)) position)
    as (end_ & He & Heb & Hestop & Heover); [lia|fold textLen; lia|].
  exists start, end_.
  destruct (bind_value _
    (fun start =>
       end_ <- scan_forward text (Z.to_nat (high - position)) position ;;
       ret (mkLineExtent true (static_cast_int (start - 0))
              (static_cast_int (end_ - start)))) _ Hs) as [-> _].
  destruct (bind_value _
    (fun end_ => ret (mkLineExtent true (static_cast_int (start - 0))
                        (static_cast_int (end_ - start)))) _ He) as [-> _].
  split; [reflexivity|].
  assert (Hlow : low <= position) by (unfold low; lia).
  assert (Hhigh : position <= high) by (unfold high, textLen in *; lia).
  split; [lia|].
  split; [destruct Hsstop; [left; lia|right; assumption]|].
  split; [exact Hsover|].
  split; [lia|].
  split; [destruct Hestop; [left; lia|right; assumption]|].
  exact Heover.
Qed.


(** X2. The region returned lies in the window and holds the position; its
    length is at most twice the radius. *)
Theorem line_extent_bounds (position maxOffset : Z) :
  let textLen := Z.of_nat (length text) in
  let low := Z.max 0 (position - maxOffset) in
  let high := Z.min textLen (position + maxOffset) in
  0 <= position < textLen ->
  0 <= maxOffset ->
  textLen < 2147483648 ->
  exists e,
    value (GetLineExtentFromPosition text textLen position maxOffset) = Some e /\
    succeeded e = true /\
    low <= lineStartPosition e <= position /\
    position <= lineStartPosition e + lineLen e <= high /\
    0 <= lineLen e <= 2 * maxOffset.
Proof.
  intros textLen low high Hpos Hm Hint.
  destruct (line_extent_run position maxOffset Hpos Hm)
    as (start & end_ & Hv & Hs & _ & _ & He & _ & _).
  fold textLen low high in Hv, Hs, He.
  assert (Hh : high <= textLen) by (unfold high; lia).
  assert (Hl : 0 <= low) by (unfold low; lia).
  rewrite !static_cast_int_id in Hv by lia.
  eexists. split; [exact Hv|]. cbn [succeeded lineStartPosition lineLen].
  unfold low, high in *. repeat split; lia.
Qed.

(** X3. No character strictly inside the region is a newline; the region
    starts at the window's start or on a newline, and ends at the window's
    end or just before a newline. *)
Theorem line_extent_region (position maxOffset : Z) :
  let textLen := Z.of_nat (length text) in
  let low := Z.max 0 (position - maxOffset) in
  let high := Z.min textLen (position + maxOffset) in
  0 <= position < textLen ->
  0 <= maxOffset ->
  textLen < 2147483648 ->
  exists e,
    value (GetLineExtentFromPosition text textLen position maxOffset) = Some e /\
    (forall i, lineStartPosition e < i < lineStartPosition e + lineLen e ->
               exists c, deref text i = Some c /\ c <> nl) /\
    (lineStartPosition e = low \/ deref text (lineStartPosition e) = Some nl) /\
    (lineStartPosition e + lineLen e = high \/
     deref text (lineStartPosition e + lineLen e) = Some nl).
Proof.
  intros textLen low high Hpos Hm Hint.
  destruct (line_extent_run position maxOffset Hpos Hm)
    as (start & end_ & Hv & Hs & Hsstop & Hsover & He & Hestop & Heover).
  fold textLen low high in Hv, Hs, He, Hsstop, Hestop.
  assert (Hh : high <= textLen) by (unfold high; lia).
  assert (Hl : 0 <= low) by (unfold low; lia).
  rewrite !static_cast_int_id in Hv by lia.
  eexists. split; [exact Hv|]. cbn [lineStartPosition lineLen].
  replace (start - 0) with start by lia.
  replace (start + (end_ - start)) with end_ by lia.
  split; [|split; assumption].
  intros i Hi. destruct (Z_le_gt_dec i position); [apply Hsover|apply Heover]; lia.
Qed.

(** X4. Without a newline in the window the region is the window: the line is
    clipped to the radius and to the buffer. *)
Theorem line_extent_clipped (position maxOffset : Z) :
  let textLen := Z.of_nat (length text) in
  let low := Z.max 0 (position - maxOffset) in
  let high := Z.min textLen (position + maxOffset) in
  0 <= position < textLen ->
  0 <= maxOffset ->
  textLen < 2147483648 ->
  (forall i, low <= i < high -> deref text i <> Some nl) ->
  value (GetLineExtentFromPosition text textLen position maxOffset)
  = Some (mkLineExtent true low (high - low)).
Proof.
  intros textLen low high Hpos Hm Hint Hnone.
  destruct (line_extent_run position maxOffset Hpos Hm)
    as (start & end_ & Hv & Hs & Hsstop & _ & He & Hestop & _).
  fold textLen low high in Hv, Hs, He, Hsstop, Hestop.
  assert (Hh : high <= textLen) by (unfold high; lia).
  assert (Hl : 0 <= low) by (unfold low; lia).
  assert (start = low).
  { destruct Hsstop as [|Hnl]; [assumption|].
    destruct (Z.eq_dec start low); [assumption|].
    exfalso. apply (Hnone start); [|exact Hnl].
    unfold low, high, textLen in *. lia. }
  assert (end_ = high).
  { destruct Hestop as [|Hnl]; [assumption|].
    destruct (Z.eq_dec end_ high); [assumption|].
    exfalso. apply (Hnone end_); [|exact Hnl]. lia. }
  subst start end_. rewrite Hv, !static_cast_int_id by lia.
  do 2 f_equal; lia.
Qed.



End LineExtentRegion.

(** ** GetLineExtentFromPosition: the first line, and the two widths *)

Section LineExtentFirstLine.
Context {C : Type} `{CharType C}.

(** X7. From a position on the first line, with the buffer's start and the
    line's newline in reach, the region is the first line without its
    newline. *)
Theorem line_extent_first_line (l1 rest : list C) (position maxOffset : Z) :
  let text := l1 ++ nl :: rest in
  ~ In nl l1 ->
  Z.of_nat (length text) < 2147483648 ->
  0 <= position < Z.of_nat (length l1) ->
  position - maxOffset <= 0 ->
  Z.of_nat (length l1) <= position + maxOffset ->
  value (GetLineExtentFromPosition text (Z.of_nat (length text)) position maxOffset)
  = Some (mkLineExtent true 0 (Z.of_nat (length l1))).
Proof.
  intros text Hnl Hint Hpos Hlo Hhi.
  assert (Htl : Z.of_nat (length text) = Z.of_nat (length l1) + 1 + Z.of_nat (length rest)).
  { unfold text. rewrite length_app. cbn [length]. lia. }
  assert (Hline : forall i c, 0 <= i < Z.of_nat (length l1) ->
                              deref text i = Some c -> c <> nl).
  { intros i c Hi Hc. unfold text in Hc. rewrite deref_app_l in Hc by lia.
    intros ->. apply Hnl. eapply deref_In; eassumption. }
  assert (Hend : deref text (Z.of_nat (length l1)) = Some nl).
  { unfold text. rewrite deref_app_r by lia. rewrite Z.sub_diag. reflexivity. }
  destruct (line_extent_run text position maxOffset)
    as (start & end_ & Hv & Hs & Hsstop & _ & He & Hestop & Heover); [lia|lia|].
  assert (start = 0).
  { destruct Hsstop as [|Hc]; [lia|].
    exfalso. apply (Hline start nl); [lia|exact Hc|reflexivity]. }
  assert (end_ = Z.of_nat (length l1)).
  { destruct (Z_lt_le_dec (Z.of_nat (length l1)) end_) as [Hgt|Hle].
    - destruct (Heover (Z.of_nat (length l1))) as (c & Hc & Hcn); [lia|].
      congruence.
    - destruct Hestop as [|Hc]; [lia|].
      destruct (Z.eq_dec end_ (Z.of_nat (length l1))); [assumption|].
      exfalso. apply (Hline end_ nl); [lia|exact Hc|reflexivity]. }
  subst start end_. rewrite Hv, !static_cast_int_id by lia.
  do 2 f_equal; lia.
Qed.

End LineExtentFirstLine.

Lemma deref_map {A B} (f : A -> B) (text : list A) i :
  deref (map f text) i = option_map f (deref text i).
Proof.
  unfold deref. destruct (i <? 0); [reflexivity|]. apply nth_error_map.
Qed.

Section WidthAgreement.
Context {C D : Type} {HC : CharType C} {HD : CharType D}.
Variable widen : C -> D.
Hypothesis widen_nl :
  forall c, char_eqb (widen c) (@nl D HD) = char_eqb c (@nl C HC).
Variable text : list C.

Lemma scan_backward_map n start :
  scan_backward (map widen text) n start = scan_backward text n start.
Proof.
  revert start. induction n as [|k IH]; intros start; [reflexivity|].
  cbn [scan_backward]. unfold bind, load. rewrite deref_map.
  destruct (deref text start) as [c|]; [|reflexivity].
  cbn [option_map]. rewrite widen_nl.
  destruct (char_eqb c nl); [reflexivity|]. rewrite IH. reflexivity.
Qed.

Lemma scan_forward_map n end_ :
  scan_forward (map widen text) n end_ = scan_forward text n end_.
Proof.
  revert end_. induction n as [|k IH]; intros end_; [reflexivity|].
  cbn [scan_forward]. unfold bind, load. rewrite deref_map.
  destruct (deref text end_) as [c|]; [|reflexivity].
  cbn [option_map]. rewrite widen_nl.
  destruct (char_eqb c nl); [reflexivity|]. rewrite IH. reflexivity.
Qed.

End WidthAgreement.

(** X9. On a byte buffer and on the same characters as wide characters the two
    exports dereference the same offsets and return the same region, for
    every length, position and radius. *)
Theorem line_extent_width_agreement
    (text : list byte) (textLen position maxOffset : Z) :
  Utf16_GetLineExtentFromPosition (map Byte.to_N text) textLen position maxOffset
  = Ascii_GetLineExtentFromPosition text textLen position maxOffset.
Proof.
  assert (Hnl : forall c : byte,
            char_eqb (Byte.to_N c) (@nl wchar_t _) = char_eqb c (@nl byte _)).
  { intros c. destruct c; reflexivity. }
  unfold Utf16_GetLineExtentFromPosition, Ascii_GetLineExtentFromPosition,
    GetLineExtentFromPosition, backward, forward.
  rewrite (scan_backward_map Byte.to_N Hnl text).
  unfold bind.
  destruct (scan_backward text _ _) as [t [start|]]; [|reflexivity].
  rewrite (scan_forward_map Byte.to_N Hnl text). reflexivity.
Qed.


Lemma line_extent_bounds_witness :
  exists e,
    value (Ascii_GetLineExtentFromPosition aaa_bbb_ccc 11 5 1) = Some e /\
    succeeded e = true /\
    4 <= lineStartPosition e <= 5 /\
    5 <= lineStartPosition e + lineLen e <= 6 /\
    0 <= lineLen e <= 2.
Proof. apply (line_extent_bounds aaa_bbb_ccc 5 1); simpl; lia. Defined.

Lemma line_extent_region_witness :
  exists e,
    value (Ascii_GetLineExtentFromPosition aaa_bbb_ccc 11 5 100) = Some e /\
    (forall i, lineStartPosition e < i < lineStartPosition e + lineLen e ->
               exists c, deref aaa_bbb_ccc i = Some c /\ c <> x0a) /\
    (lineStartPosition e = 0 \/ deref aaa_bbb_ccc (lineStartPosition e) = Some x0a) /\
    (lineStartPosition e + lineLen e = 11 \/
     deref aaa_bbb_ccc (lineStartPosition e + lineLen e) = Some x0a).
Proof.
  assert (H0 : 0 <= 5 < Z.of_nat (length aaa_bbb_ccc)) by (simpl; lia).
  assert (H1 : 0 <= 100) by lia.
  assert (H2 : Z.of_nat (length aaa_bbb_ccc) < 2147483648) by (simpl; lia).
  exact (line_extent_region aaa_bbb_ccc 5 100 H0 H1 H2).
Defined.

Lemma line_extent_clipped_witness :
  value (Ascii_GetLineExtentFromPosition aaa_bbb_ccc 11 5 1)
  = Some (mkLineExtent true 4 2).
Proof.
  apply (line_extent_clipped aaa_bbb_ccc 5 1); try (simpl; lia).
  intros i Hi. simpl in Hi.
  assert (i = 4 \/ i = 5) as [-> | ->] by lia; discriminate.
Defined.



Lemma line_extent_first_line_witness :
  value (Ascii_GetLineExtentFromPosition aaa_bbb_ccc 11 1 5)
  = Some (mkLineExtent true 0 3).
Proof.
  assert (Hnl : ~ In x0a [x61; x61; x61]) by (simpl; intuition discriminate).
  refine (line_extent_first_line [x61; x61; x61]
            [x62; x62; x62; x0a; x63; x63; x63] 1 5 Hnl _ _ _ _); simpl; lia.
Defined.


(** ** Text classification: further properties *)

Lemma is_ascii_byte_iff (b : byte) :
  is_ascii_byte b = true <-> (Byte.to_N b <= 127)%N.
Proof.
  unfold is_ascii_byte, asciiLimit. rewrite negb_true_iff, N.ltb_ge. reflexivity.
Qed.

Lemma forallb_is_ascii_iff (l : list byte) :
  forallb is_ascii_byte l = true <-> Forall (fun b => (Byte.to_N b <= 127)%N) l.
Proof.
  rewrite forallb_forall, Forall_forall.
  split; intros Hl b Hb; apply is_ascii_byte_iff, Hl, Hb.
Qed.

(** No byte of the byte-order mark is in the ASCII range. *)
Lemma ascii_byte_not_bom (c : byte) :
  is_ascii_byte c = true ->
  Byte.eqb c xef = false /\ Byte.eqb c xbb = false /\ Byte.eqb c xbf = false.
Proof.
  intros Hc. repeat split.
  - destruct (Byte.eqb c xef) eqn:E; [|reflexivity].
    apply byte_dec_bl in E. subst c. discriminate.
  - destruct (Byte.eqb c xbb) eqn:E; [|reflexivity].
    apply byte_dec_bl in E. subst c. discriminate.
  - destruct (Byte.eqb c xbf) eqn:E; [|reflexivity].
    apply byte_dec_bl in E. subst c. discriminate.
Qed.

Lemma has_bom_app_ascii (text s : list byte) :
  forallb is_ascii_byte s = true -> has_bom (text ++ s) = has_bom text.
Proof.
  intros Hs.
  destruct text as [|b0 [|b1 [|b2 rest]]]; [| | |reflexivity];
    destruct s as [|c0 s]; cbn [app has_bom]; try reflexivity;
    cbn [forallb] in Hs; apply andb_true_iff in Hs; destruct Hs as [H0 Hs];
    destruct (ascii_byte_not_bom c0 H0) as (Eef & Ebb & Ebf).
  - destruct s as [|c1 [|c2 s]]; try reflexivity. rewrite Eef. reflexivity.
  - destruct s as [|c1 s]; try reflexivity. rewrite Ebb, andb_false_r. reflexivity.
  - rewrite Ebf, andb_false_r. reflexivity.
Qed.

(** X11. Appending bytes of the ASCII range to a buffer does not change its
    kind. *)
Theorem Text_GetKind_append_ascii (text s : list byte) :
  Forall (fun b => (Byte.to_N b <= 127)%N) s ->
  value (Text_GetKind (text ++ s) (Z.of_nat (length (text ++ s))))
  = value (Text_GetKind text (Z.of_nat (length text))).
Proof.
  intros Hs. apply forallb_is_ascii_iff in Hs.
  rewrite !Text_GetKind_value, (has_bom_app_ascii text s Hs).
  destruct (has_bom text) eqn:E.
  - apply has_bom_iff in E. destruct E as [rest ->].
    cbn [app skipn]. rewrite forallb_app, Hs, andb_true_r. reflexivity.
  - rewrite forallb_app, Hs, andb_true_r. reflexivity.
Qed.

Lemma Text_GetKind_append_ascii_witness :
  value (Text_GetKind ([xef; xbb; xbf; xc3] ++ [x61; x62]) 6)
  = value (Text_GetKind [xef; xbb; xbf; xc3] 4).
Proof.
  apply (Text_GetKind_append_ascii [xef; xbb; xbf; xc3] [x61; x62]).
  repeat constructor; vm_compute; discriminate.
Defined.

(** X12. The kind is [Ascii] exactly when every byte of the buffer is at most
    0x7F; a buffer that starts with a byte-order mark is never [Ascii]. *)
Theorem Text_GetKind_Ascii_iff (text : list byte) :
  value (Text_GetKind text (Z.of_nat (length text))) = Some Ascii <->
  Forall (fun b => (Byte.to_N b <= 127)%N) text.
Proof.
  rewrite Text_GetKind_value, <- forallb_is_ascii_iff. split.
  - destruct (has_bom text).
    + destruct (forallb is_ascii_byte (skipn 3 text)); discriminate.
    + destruct (forallb is_ascii_byte text); [reflexivity|discriminate].
  - intros Ha. rewrite Ha.
    destruct (has_bom text) eqn:E; [|reflexivity].
    apply has_bom_iff in E. destruct E as [rest ->]. discriminate.
Qed.

(** X13. A length that is not positive is classified [Ascii] without a single
    dereference, whatever the buffer. *)
Theorem Text_GetKind_no_length (text : list byte) (textLen : Z) :
  textLen <= 0 -> Text_GetKind text textLen = ([], Some Ascii).
Proof.
  intros Hl. unfold Text_GetKind, Text_HasUtf8Bom, Text_IsAscii.
  destruct (Z.leb_spec 3 textLen); [lia|].
  replace (Z.to_nat (0 + textLen - 0)) with O by lia. reflexivity.
Qed.

Lemma Text_GetKind_no_length_witness :
  Text_GetKind [xef; xbb; xbf; xc3] (-1) = ([], Some Ascii).
Proof. apply (Text_GetKind_no_length [xef; xbb; xbf; xc3] (-1)). lia. Defined.

Lemma Text_IsAscii_loop_stops (h : byte) (rest asc : list byte) :
  (128 <= Byte.to_N h)%N ->
  Forall (fun b => (Byte.to_N b <= 127)%N) asc ->
  forall (pre : list byte) (n : nat),
    (length asc < n)%nat ->
    Text_IsAscii_loop (pre ++ asc ++ h :: rest) n (Z.of_nat (length pre))
    = (map Z.of_nat (seq (length pre) (length asc + 1)), Some false).
Proof.
  intros Hh. induction 1 as [|b asc Hb Hasc IH]; intros pre n Hn;
    (destruct n as [|k]; [simpl in Hn; lia|]); cbn [Text_IsAscii_loop].
  - assert (Hd : deref (pre ++ [] ++ h :: rest) (Z.of_nat (length pre)) = Some h).
    { rewrite deref_app_r by lia. rewrite Z.sub_diag. reflexivity. }
    rewrite (bind_load _ _ _ _ Hd).
    replace (asciiLimit <? Byte.to_N h)%N with true
      by (symmetry; apply N.ltb_lt; unfold asciiLimit; lia).
    reflexivity.
  - assert (Hd : deref (pre ++ (b :: asc) ++ h :: rest) (Z.of_nat (length pre)) = Some b).
    { rewrite deref_app_r by lia. rewrite Z.sub_diag. reflexivity. }
    rewrite (bind_load _ _ _ _ Hd).
    replace (asciiLimit <? Byte.to_N b)%N with false
      by (symmetry; apply N.ltb_ge; unfold asciiLimit; lia).
    specialize (IH (pre ++ [b]) k).
    rewrite <- app_assoc in IH. cbn [app] in IH.
    rewrite length_app in IH. cbn [length] in IH.
    replace (Z.of_nat (length pre) + 1) with (Z.of_nat (length pre + 1)) by lia.
    cbn [app]. rewrite IH by (simpl in Hn; lia).
    cbn [reads value fst snd length]. f_equal.
    replace (S (length asc) + 1)%nat with (S (length asc + 1)) by lia.
    cbn [seq map]. f_equal. f_equal. f_equal. lia.
Qed.

(** X14. [Text_IsAscii] stops on the first byte above 0x7F: it dereferences the
    offsets up to that byte, in order, and none after it, even when the
    length it was given reaches further than the buffer. *)
Theorem Text_IsAscii_stops_at_first_high_byte
    (pre asc rest : list byte) (h : byte) (textLen : Z) :
  Forall (fun b => (Byte.to_N b <= 127)%N) asc ->
  (128 <= Byte.to_N h)%N ->
  Z.of_nat (length asc) < textLen ->
  Text_IsAscii (pre ++ asc ++ h :: rest) (Z.of_nat (length pre)) textLen
  = (map Z.of_nat (seq (length pre) (length asc + 1)), Some false).
Proof.
  intros Hasc Hh Hl. unfold Text_IsAscii.
  apply Text_IsAscii_loop_stops; [assumption|assumption|lia].
Qed.

Lemma Text_IsAscii_stops_at_first_high_byte_witness :
  Text_IsAscii ([xef; xbb; xbf] ++ [x61; x62] ++ xc3 :: [xa9; x63]) 3 100
  = ([3; 4; 5], Some false).
Proof.
  apply (Text_IsAscii_stops_at_first_high_byte
           [xef; xbb; xbf] [x61; x62] [xa9; x63] xc3 100).
  - repeat constructor; vm_compute; discriminate.
  - vm_compute; discriminate.
  - simpl; lia.
Defined.

(** ** Ascii_Compare: an equivalence *)

(** [memcmp] returns 0 exactly when each compared byte is inside both
    buffers and the same in both. *)
Lemma memcmp_from_zero_iff (s1 s2 : list byte) (n : nat) :
  forall i,
    memcmp_from s1 s2 n i = Some 0 <->
    (forall k, i <= k < i + Z.of_nat n ->
               exists x, deref s1 k = Some x /\ deref s2 k = Some x).
Proof.
  induction n as [|m IH]; intros i.
  - split; [intros _ k Hk; lia|reflexivity].
  - cbn [memcmp_from]. split.
    + intros Hr k Hk.
      destruct (deref s1 i) as [a|] eqn:Ea; [|discriminate].
      destruct (deref s2 i) as [b|] eqn:Eb; [|discriminate].
      destruct (Byte.eqb a b) eqn:E.
      * apply byte_dec_bl in E. subst b.
        destruct (Z.eq_dec k i) as [->|Hne]; [eauto|].
        apply (proj1 (IH (i + 1)) Hr). lia.
      * exfalso. apply Byte.eqb_false in E. apply E. apply byte_to_N_inj.
        injection Hr as Hr. lia.
    + intros Hall. destruct (Hall i) as (x & -> & ->); [lia|].
      rewrite (@byte_dec_lb x x eq_refl). apply IH.
      intros k Hk. apply Hall. lia.
Qed.



Lemma Ascii_Compare_Some_true (a b : list byte) (lenA lenB : N) :
  Ascii_Compare a lenA b lenB = Some true <->
  lenA = lenB /\
  forall k, 0 <= k < Z.of_N lenA ->
            exists x, deref a k = Some x /\ deref b k = Some x.
Proof.
  unfold Ascii_Compare, memcmp.
  destruct (N.eqb_spec lenA lenB) as [<-|Hne]; cbn [negb].
  - pose proof (memcmp_from_zero_iff a b (N.to_nat lenA) 0) as Hz.
    replace (0 + Z.of_nat (N.to_nat lenA)) with (Z.of_N lenA) in Hz by lia.
    destruct (memcmp_from a b (N.to_nat lenA) 0) as [r|].
    + destruct (Z.eqb_spec r 0) as [->|Hr].
      * split; [intros _; split; [reflexivity|apply Hz; reflexivity]|reflexivity].
      * split; [discriminate|]. intros [_ E]. apply Hz in E. congruence.
    + split; [discriminate|]. intros [_ E]. apply Hz in E. discriminate.
  - split; [discriminate|]. intros [E _]. contradiction.
Qed.

(** X16. [Ascii_Compare] is reflexive on a buffer that holds the bytes it is
    asked to compare, and transitive: equal to a common buffer, two buffers
    are equal. *)
Theorem Ascii_Compare_refl_trans (a b c : list byte) (lenA lenB lenC : N) :
  ((N.to_nat lenA <= length a)%nat -> Ascii_Compare a lenA a lenA = Some true) /\
  (Ascii_Compare a lenA b lenB = Some true ->
   Ascii_Compare b lenB c lenC = Some true ->
   Ascii_Compare a lenA c lenC = Some true).
Proof.
  split.
  - intros Hl. apply Ascii_Compare_Some_true. split; [reflexivity|].
    intros k Hk. destruct (deref_in_range a k) as [x Hx]; [lia|]. eauto.
  - intros Hab Hbc. apply Ascii_Compare_Some_true in Hab, Hbc.
    destruct Hab as [<- Hab], Hbc as [<- Hbc].
    apply Ascii_Compare_Some_true. split; [reflexivity|].
    intros k Hk. destruct (Hab k Hk) as (x & Ha & Hb).
    destruct (Hbc k Hk) as (y & Hb' & Hc).
    exists x. split; [exact Ha|]. congruence.
Qed.

Lemma Ascii_Compare_refl_trans_witness :
  Ascii_Compare [x61; x62; x63] 2 [x61; x62; x63] 2 = Some true /\
  Ascii_Compare [x61; x62; x63] 2 [x61; x62; x65] 2 = Some true.
Proof.
  split.
  - apply (proj1 (Ascii_Compare_refl_trans [x61; x62; x63] [] [] 2 0 0)).
    simpl. lia.
  - apply (proj2 (Ascii_Compare_refl_trans
                    [x61; x62; x63] [x61; x62] [x61; x62; x65] 2 2 2));
      reflexivity.
Defined.

(** ** Utf16_Search: further properties *)

Section Utf16SearchProperties.
Variable kMatchCase : Z.
Variable toupper : wchar_t -> wchar_t.

Lemma range_prefix {T} (buf : list T) (n : N) :
  (N.to_nat n <= length buf)%nat -> range buf n = Some (firstn (N.to_nat n) buf).
Proof.
  intros Hn. unfold range.
  destruct (N.leb_spec n (N.of_nat (length buf))); [reflexivity|lia].
Qed.

(** One call on ranges that lie inside their buffers. *)
Lemma Utf16_Search_run
    (text : list wchar_t) (textLength : N)
    (pattern : list wchar_t) (patternLength : N) (options : Z) :
  (N.to_nat textLength <= length text)%nat ->
  (N.to_nat patternLength <= length pattern)%nat ->
  let occ := occurs_at (chars_match kMatchCase toupper options)
               (firstn (N.to_nat textLength) text)
               (firstn (N.to_nat patternLength) pattern) in
  exists k : nat,
    (k <= N.to_nat textLength)%nat /\
    Utf16_Search kMatchCase toupper text textLength pattern patternLength options
    = (if Z.of_nat k =? Z.of_N textLength
       then Some nullptr else Some (text_plus (Z.of_nat k))) /\
    (forall j, (j < k)%nat -> ~ occ j) /\
    (occ k \/ (k = N.to_nat textLength /\ forall j, ~ occ j)).
Proof.
  intros Ht Hp occ.
  assert (Hlen : length (firstn (N.to_nat textLength) text) = N.to_nat textLength)
    by (apply firstn_length_le; exact Ht).
  unfold occ, Utf16_Search, chars_match.
  rewrite (range_prefix text textLength Ht), (range_prefix pattern patternLength Hp).
  destruct (negb (Z.land options kMatchCase =? 0)).
  - destruct (std_search_spec char_equal eq (char_equal_match)
                (firstn (N.to_nat patternLength) pattern)
                (firstn (N.to_nat textLength) text) 0)
      as (k & -> & Hle & Hmin & Hend).
    exists k. rewrite Hlen in Hle, Hend. rewrite !Z.add_0_l. auto.
  - destruct (std_search_spec (char_equal_icase toupper)
                (fun c s => toupper c = toupper s)
                (char_equal_icase_match toupper)
                (firstn (N.to_nat patternLength) pattern)
                (firstn (N.to_nat textLength) text) 0)
      as (k & -> & Hle & Hmin & Hend).
    exists k. rewrite Hlen in Hle, Hend. rewrite !Z.add_0_l. auto.
Qed.

(** X17. A pattern longer than the text is not found. *)
Theorem Utf16_Search_pattern_longer_than_text
    (text : list wchar_t) (textLength : N)
    (pattern : list wchar_t) (patternLength : N) (options : Z) :
  (N.to_nat textLength <= length text)%nat ->
  (N.to_nat patternLength <= length pattern)%nat ->
  (textLength < patternLength)%N ->
  Utf16_Search kMatchCase toupper text textLength pattern patternLength options
  = Some nullptr.
Proof.
  intros Ht Hp Hlt.
  destruct (Utf16_Search_run text textLength pattern patternLength options Ht Hp)
    as (k & Hle & -> & _ & [Ho|[-> _]]).
  - apply occurs_at_bound in Ho.
    rewrite !firstn_length_le in Ho by assumption. lia.
  - destruct (Z.eqb_spec (Z.of_nat (N.to_nat textLength)) (Z.of_N textLength));
      [reflexivity|lia].
Qed.

(** X18. A match that is returned lies inside the text, all of it: the
    offset is not negative, it is below [textLength], and the pattern ends
    at or before the text's end. *)
Theorem Utf16_Search_match_inside_text
    (text : list wchar_t) (textLength : N)
    (pattern : list wchar_t) (patternLength : N) (options : Z) (i : Z) :
  (N.to_nat textLength <= length text)%nat ->
  (N.to_nat patternLength <= length pattern)%nat ->
  Utf16_Search kMatchCase toupper text textLength pattern patternLength options
  = Some (text_plus i) ->
  0 <= i < Z.of_N textLength /\
  i + Z.of_N patternLength <= Z.of_N textLength.
Proof.
  intros Ht Hp.
  destruct (Utf16_Search_run text textLength pattern patternLength options Ht Hp)
    as (k & Hle & -> & _ & Hend).
  destruct (Z.eqb_spec (Z.of_nat k) (Z.of_N textLength)) as [|Hne]; [discriminate|].
  intros E. injection E as <-.
  destruct Hend as [Ho|[-> _]]; [|lia].
  apply occurs_at_bound in Ho.
  rewrite !firstn_length_le in Ho by assumption. lia.
Qed.

(** X19. Where the case-sensitive search finds the pattern, the search without
    the match-case bit finds it too, there or further left. *)
Theorem Utf16_Search_match_case_implies_ignore_case
    (text : list wchar_t) (textLength : N)
    (pattern : list wchar_t) (patternLength : N)
    (options options' : Z) (i : Z) :
  (N.to_nat textLength <= length text)%nat ->
  (N.to_nat patternLength <= length pattern)%nat ->
  Z.land options kMatchCase <> 0 ->
  Z.land options' kMatchCase = 0 ->
  Utf16_Search kMatchCase toupper text textLength pattern patternLength options
  = Some (text_plus i) ->
  exists j,
    Utf16_Search kMatchCase toupper text textLength pattern patternLength options'
    = Some (text_plus j) /\ 0 <= j <= i.
Proof.
  intros Ht Hp Hcs Hci.
  destruct (Utf16_Search_run text textLength pattern patternLength options Ht Hp)
    as (k & Hle & -> & _ & Hend).
  destruct (Utf16_Search_run text textLength pattern patternLength options' Ht Hp)
    as (k' & Hle' & -> & Hmin' & Hend').
  destruct (Z.eqb_spec (Z.of_nat k) (Z.of_N textLength)) as [|Hne]; [discriminate|].
  intros E. injection E as <-.
  destruct Hend as [Ho|[-> _]]; [|lia].
  assert (Ho' : occurs_at (chars_match kMatchCase toupper options')
                  (firstn (N.to_nat textLength) text)
                  (firstn (N.to_nat patternLength) pattern) k).
  { destruct Ho as (pre & mid & post & E & Hl & F).
    exists pre, mid, post. split; [exact E|]. split; [exact Hl|].
    eapply Forall2_impl; [|exact F]. intros c s. unfold chars_match.
    rewrite Hci. cbn [Z.eqb negb].
    destruct (Z.eqb_spec (Z.land options kMatchCase) 0); [contradiction|].
    cbn [negb]. intros ->. reflexivity. }
  assert (Hk : (k' <= k)%nat).
  { destruct (Nat.le_gt_cases k' k) as [|Hgt]; [assumption|].
    destruct (Hmin' k Hgt Ho'). }
  exists (Z.of_nat k'). split; [|lia].
  destruct (Z.eqb_spec (Z.of_nat k') (Z.of_N textLength)); [lia|reflexivity].
Qed.


End Utf16SearchProperties.

Lemma Utf16_Search_pattern_longer_than_text_witness :
  Utf16_Search 1 toupper_C [97; 98]%N 2 [97; 98; 99]%N 3 0 = Some nullptr.
Proof.
  apply (Utf16_Search_pattern_longer_than_text 1 toupper_C
           [97; 98]%N 2 [97; 98; 99]%N 3 0); simpl; lia.
Defined.

Lemma Utf16_Search_match_inside_text_witness :
  0 <= 2 < Z.of_N 6 /\ 2 + Z.of_N 3 <= Z.of_N 6.
Proof.
  apply (Utf16_Search_match_inside_text 1 toupper_C
           [88; 88; 65; 66; 67; 89]%N 6 [97; 98; 99]%N 3 0 2);
    [simpl; lia|simpl; lia|reflexivity].
Defined.

Lemma Utf16_Search_match_case_implies_ignore_case_witness :
  exists j,
    Utf16_Search 1 toupper_C [97; 66; 99; 97; 98; 99]%N 6 [97; 98; 99]%N 3 0
    = Some (text_plus j) /\ 0 <= j <= 3.
Proof.
  apply (Utf16_Search_match_case_implies_ignore_case 1 toupper_C
           [97; 66; 99; 97; 98; 99]%N 6 [97; 98; 99]%N 3 1 0 3);
    [simpl; lia|simpl; lia|discriminate|reflexivity|reflexivity].
Defined.


(** ** AsciiSearchAlgorithm_Create and AsciiSearchAlgorithm_Delete *)

Lemma heap_remove_head (c : SearchClass) (heap : list SearchClass) :
  heap_remove c (c :: heap) = Some heap.
Proof.
  cbn [heap_remove]. destruct (SearchClass_eq_dec c c); [reflexivity|contradiction].
Qed.

(** X21. After [AsciiSearchAlgorithm_Create] the heap holds the engine that was
    returned and nothing else, and after [AsciiSearchAlgorithm_Delete] of what
    was returned, null or not, it is empty again; no object is deleted that
    is not there. *)
Theorem Create_then_Delete_leaves_heap_empty
    (kMatchCase : Z) (EngineState : Type)
    (constructor : SearchClass -> EngineState)
    (PreProcess : SearchClass -> EngineState -> list byte -> Z -> Z ->
                  SearchCreateResult -> EngineState * SearchCreateResult)
    (kind : Z) (pattern : list byte) (patternLen options : Z) :
  let o := AsciiSearchAlgorithm_Create kMatchCase EngineState constructor
             PreProcess kind pattern patternLen options in
  heap_after (heap_events EngineState o) []
    = Some (match returned EngineState o with
            | Some (c, _) => [c]
            | None => []
            end) /\
  heap_after (heap_events EngineState o
              ++ AsciiSearchAlgorithm_Delete (returned EngineState o)) []
    = Some [].
Proof.
  cbv zeta.
  destruct (Create_cases kMatchCase EngineState constructor PreProcess
              kind pattern patternLen options)
    as [[_ ->]|[(c & _ & _ & ->)|(c & _ & _ & ->)]];
    cbn [heap_events returned AsciiSearchAlgorithm_Delete app heap_after];
    rewrite ?heap_remove_head; split; reflexivity.
Qed.

(** ** GetLineExtentFromPosition: the last line and the end of the buffer *)

Section LineExtentLastLine.
Context {C : Type} `{CharType C}.

(** X8. From a position on the last line, with the newline before that line
    and the buffer's end in reach, the region starts on that newline and
    runs to the end of the buffer. *)
Theorem line_extent_last_line (l1 l2 : list C) (position maxOffset : Z) :
  let text := l1 ++ nl :: l2 in
  let a := Z.of_nat (length l1) in
  let b := Z.of_nat (length l2) in
  ~ In nl l2 ->
  Z.of_nat (length text) < 2147483648 ->
  a < position <= a + b ->
  position - maxOffset <= a ->
  a + 1 + b <= position + maxOffset ->
  value (GetLineExtentFromPosition text (Z.of_nat (length text)) position maxOffset)
  = Some (mkLineExtent true a (b + 1)).
Proof.
  intros text a b Hnl Hint Hpos Hlo Hhi.
  assert (Htl : Z.of_nat (length text) = a + 1 + b).
  { unfold text, a, b. rewrite length_app. cbn [length]. lia. }
  assert (Ha : deref text a = Some nl).
  { unfold text. rewrite deref_app_r by (fold a; lia). fold a.
    rewrite Z.sub_diag. reflexivity. }
  assert (Hline : forall i c, a < i <= a + b -> deref text i = Some c -> c <> nl).
  { intros i c Hi Hc. unfold text in Hc.
    rewrite deref_app_r in Hc by (fold a; lia). fold a in Hc.
    rewrite deref_cons in Hc by lia.
    intros ->. apply Hnl. eapply deref_In; eassumption. }
  destruct (line_extent_run text position maxOffset)
    as (start & end_ & Hv & Hs & Hsstop & Hsover & He & Hestop & _); [lia|lia|].
  assert (start = a).
  { destruct (Z_lt_le_dec start a) as [Hlt|Hge].
    - destruct (Hsover a) as (c & Hc & Hcn); [lia|]. congruence.
    - destruct (Z.eq_dec start a); [assumption|].
      destruct Hsstop as [|Hc]; [lia|].
      exfalso. apply (Hline start nl); [lia|exact Hc|reflexivity]. }
  assert (end_ = a + 1 + b).
  { destruct Hestop as [|Hc]; [lia|].
    destruct (Z.eq_dec end_ (a + 1 + b)); [assumption|].
    exfalso. apply (Hline end_ nl); [lia|exact Hc|reflexivity]. }
  subst start end_. rewrite Hv, !static_cast_int_id by lia.
  do 2 f_equal; lia.
Qed.


End LineExtentLastLine.

Lemma line_extent_last_line_witness :
  value (Ascii_GetLineExtentFromPosition
           [x61; x61; x61; x0a; x62; x62; x62] 7 5 100)
  = Some (mkLineExtent true 3 4).
Proof.
  assert (Hnl : ~ In x0a [x62; x62; x62]) by (simpl; intuition discriminate).
  refine (line_extent_last_line [x61; x61; x61] [x62; x62; x62] 5 100 Hnl _ _ _ _);
    simpl; lia.
Defined.

